(** * The JSON / YAML outline tree of [src/json/jsonTree.ts]

    A shallow embedding of [JsonTreeProvider]: the two tree builders
    ([buildJsonTree], [buildYamlTree]), the offset index ([nodeMap]), the
    facade ([getChildren], [getTreeItem], [getLabel]) and [rename].

    The provider builds a graph of mutable [TreeNode] objects: a node is
    stored in [nodeMap] and pushed to its parent's [children] while it is
    still being filled in, and it points back to its parent.  The embedding
    keeps that sharing: nodes live in a store ([heap]) and are named by
    references; [nodeMap], [children], [parent] and [tree] hold references.

    The two parser libraries (jsonc-parser, yaml) and the editor are not
    part of the repository.  The parsers are parameters of [parseTree]; their
    syntax trees are the input of the builders.  A string is a sequence of
    code units below 256, a number is an integer, and a position in a
    document is the offset it stands for. *)

From Stdlib Require Import ZArith String Ascii List Lia DecimalString.
From stdpp Require Import base option list gmap strings.

Local Open Scope Z_scope.

(** ** JavaScript values and strings *)

(** A JavaScript value as far as the provider inspects one ([typeof],
    [=== undefined], [toString()]).  Numbers are the integral ones (offsets,
    positions, counts); an object carries what its [toString()] returns. *)
Inductive JsValue :=
| VUndefined
| VNull
| VBool (b : bool)
| VNum (n : Z)
| VStr (s : string)
| VObj (rendering : string).

#[global] Instance JsValue_eq_dec : EqDecision JsValue.
Proof. solve_decision. Defined.

(** Outcome of a call that may [throw]. *)
Inductive result (A : Type) :=
| Returns (a : A)
| Throws (message : string).
Arguments Returns {A} a.
Arguments Throws {A} message.

Definition dquote : ascii := "034"%char.
Definition squote : ascii := "039"%char.


(** [n.toString()] and [n + ''] for a safe integer: its decimal digits,
    after a minus sign when it is negative.  The list positions, the lengths
    of lists and the offsets in a text that the provider prints are safe
    integers.  A number outside this range prints otherwise (from [1e21] on
    with an exponent, above [2^53] with the shortest digits that give the
    number back): where a statement prints a key, it says that the key is a
    safe integer. *)
Definition Number_toString (n : Z) : string := NilZero.string_of_int (Z.to_int n).

Definition Boolean_toString (b : bool) : string :=
  if b then "true"%string else "false"%string.

(** [v.toString()]: a [TypeError] on [undefined] and [null]. *)
Definition toString (v : JsValue) : result string :=
  match v with
  | VUndefined => Throws "TypeError"
  | VNull => Throws "TypeError"
  | VBool b => Returns (Boolean_toString b)
  | VNum n => Returns (Number_toString n)
  | VStr s => Returns s
  | VObj rendering => Returns rendering
  end.

(** ** The canonical tree *)

Inductive TreeNodeType :=
| TObject | TArray | TString | TNumber | TBoolean | TNull.

#[global] Instance TreeNodeType_eq_dec : EqDecision TreeNodeType.
Proof. solve_decision. Defined.

(** References to [TreeNode] objects: positions in the store, in order of
    creation. *)
Abbreviation ref := nat (only parsing).

Module TreeNode.
Record t := mk {
  offset : Z;
  length : Z;
  type : TreeNodeType;
  value : JsValue;
  parent : option ref;
  children : option (list ref);
  key : JsValue;
  keyOffset : option Z;
  keyLength : option Z
}.
End TreeNode.

(** The objects created by a parse and the provider's [nodeMap]. *)
Record Store := {
  heap : list TreeNode.t;
  nodeMap : gmap Z ref
}.

Definition emptyStore : Store := {| heap := []; nodeMap := ∅ |}.

(** An object literal [{ ... }]: a new object, after all existing ones. *)
Definition alloc (n : TreeNode.t) (st : Store) : ref * Store :=
  (List.length (heap st), {| heap := heap st ++ [n]; nodeMap := nodeMap st |}).

(** [this.nodeMap.set(offset, node)]. *)
Definition nodeMap_set (offset : Z) (node : ref) (st : Store) : Store :=
  {| heap := heap st; nodeMap := <[offset := node]> (nodeMap st) |}.

(** A field assignment on the object [r]. *)
Definition update (r : ref) (f : TreeNode.t → TreeNode.t) (st : Store) : Store :=
  {| heap := alter f r (heap st); nodeMap := nodeMap st |}.

Definition with_children (cs : option (list ref)) (n : TreeNode.t) : TreeNode.t :=
  TreeNode.mk (TreeNode.offset n) (TreeNode.length n) (TreeNode.type n)
    (TreeNode.value n) (TreeNode.parent n) cs (TreeNode.key n)
    (TreeNode.keyOffset n) (TreeNode.keyLength n).

Definition with_keyOffset (ko : option Z) (n : TreeNode.t) : TreeNode.t :=
  TreeNode.mk (TreeNode.offset n) (TreeNode.length n) (TreeNode.type n)
    (TreeNode.value n) (TreeNode.parent n) (TreeNode.children n) (TreeNode.key n)
    ko (TreeNode.keyLength n).

Definition with_keyLength (kl : option Z) (n : TreeNode.t) : TreeNode.t :=
  TreeNode.mk (TreeNode.offset n) (TreeNode.length n) (TreeNode.type n)
    (TreeNode.value n) (TreeNode.parent n) (TreeNode.children n) (TreeNode.key n)
    (TreeNode.keyOffset n) kl.

(** [current.children?.push(child)]. *)
Definition push (child : ref) (n : TreeNode.t) : TreeNode.t :=
  with_children (option_map (λ cs, cs ++ [child]) (TreeNode.children n)) n.

Definition pushChild (current child : ref) (st : Store) : Store :=
  update current (push child) st.

(** [child.keyOffset = ko; child.keyLength = kl]. *)
Definition setKeySpan (child : ref) (ko kl : option Z) (st : Store) : Store :=
  update child (with_keyLength kl) (update child (with_keyOffset ko) st).

(** [for (const x of items)] and [items.forEach((x, index) => ...)], the
    body threading the store. *)
Section Loops.
Context {A : Type} (body : A → Z → Store → Store).

Fixpoint forEachFrom (index : Z) (items : list A) (st : Store) : Store :=
  match items with
  | [] => st
  | x :: rest => forEachFrom (index + 1) rest (body x index st)
  end.

Definition forEach (items : list A) (st : Store) : Store :=
  forEachFrom 0 items st.
End Loops.

(** ** The JSON builder *)

(** [json.Node] of jsonc-parser, the concrete syntax tree the builder walks. *)
Module json.
Inductive NodeType :=
| object | array | property | string | number | boolean | null.

#[local] Unset Elimination Schemes.
Inductive Node := mk {
  type : NodeType;
  value : JsValue;
  offset : Z;
  length : Z;
  children : option (list Node)
}.
End json.

#[global] Instance json_NodeType_eq_dec : EqDecision json.NodeType.
Proof. solve_decision. Defined.

Definition normalizeNodeType (type : json.NodeType) : TreeNodeType :=
  match type with
  | json.object => TObject
  | json.array => TArray
  | json.number => TNumber
  | json.boolean => TBoolean
  | json.string => TString
  | json.null => TNull
  | _ => TString
  end.

(** What the builder does with a built child: [if (builtChild)
    current.children?.push(builtChild)]. *)
Definition pushBuilt (current : ref) (built : option ref * Store) : Store :=
  match built with
  | (Some builtChild, st) => pushChild current builtChild st
  | (None, st) => st
  end.

(** [child.keyOffset = keyNode.offset; child.keyLength = keyNode.length] on
    the result of the recursive call of the property case. *)
Definition stampKey (keyNode : json.Node) (built : option ref * Store) : option ref * Store :=
  match built with
  | (Some child, st) =>
      (Some child, setKeySpan child (Some (json.offset keyNode)) (Some (json.length keyNode)) st)
  | (None, st) => (None, st)
  end.

(** [buildJsonTree(node, parent, key)].  The node is always there: the
    callers pass the parser's root, once it is known not to be undefined,
    and elements of [children]. *)
Fixpoint buildJsonTree (node : json.Node) (parent : option ref) (key : JsValue)
    (st : Store) {struct node} : option ref * Store :=
  let generic :=
    let '(current, st1) :=
      alloc (TreeNode.mk (json.offset node) (json.length node)
               (normalizeNodeType (json.type node)) (json.value node)
               parent (Some []) key None None) st in
    let st2 := nodeMap_set (json.offset node) current st1 in
    let st3 :=
      match json.children node with
      | Some children =>
          match json.type node with
          | json.object =>
              forEach (λ child _ s,
                pushBuilt current (buildJsonTree child (Some current) VUndefined s))
                children st2
          | json.array =>
              forEach (λ childNode index s,
                pushBuilt current (buildJsonTree childNode (Some current) (VNum index) s))
                children st2
          | _ => st2
          end
      | None => st2
      end in
    (Some current, st3) in
  match json.type node, json.children node with
  | json.property, Some (keyNode :: rest) =>
      match rest with
      | valueNode :: _ =>
          stampKey keyNode (buildJsonTree valueNode parent (json.value keyNode) st)
      | [] => (None, st)
      end
  | _, _ => generic
  end.

(** ** The YAML builder *)

(** The nodes of the yaml library's document, as far as the builder reads
    them: [range], [value], [toJSON()], [items], and for a pair [key] and
    [value]. *)
Module yaml.
(** The shapes of a [range] property that [getYamlRange] tells apart.  An
    element or property is [Some n] when [typeof] gives ['number'] for it. *)
Inductive Range :=
| RangeArray (elements : list (option Z))
| RangeObject (start end_ : option Z)
| RangeAbsent.

(** A key node: the builder reads its range and decodes it, and never
    walks into it. *)
Record Key := mkKey {
  key_range : Range;
  key_value : JsValue;
  key_toJSON : option JsValue;
  key_toString : string
}.

#[local] Unset Elimination Schemes.
Inductive Node :=
| mk (range : Range) (value : JsValue) (toJSON : option JsValue) (kind : Kind)
with Kind :=
| Map (items : list Pair)
| Seq (items : list Node)
| Scalar
with Pair :=
| mkPair (pair_key : option Key) (pair_value : option Node) (pair_range : Range).

Definition range (node : Node) : Range := let '(mk r _ _ _) := node in r.
Definition value (node : Node) : JsValue := let '(mk _ v _ _) := node in v.
Definition toJSON (node : Node) : option JsValue := let '(mk _ _ j _) := node in j.
Definition kind (node : Node) : Kind := let '(mk _ _ _ k) := node in k.
Definition pair_key (pair : Pair) : option Key := let '(mkPair k _ _) := pair in k.
Definition pair_value (pair : Pair) : option Node := let '(mkPair _ v _) := pair in v.
Definition pair_range (pair : Pair) : Range := let '(mkPair _ _ r) := pair in r.

Definition isMap (node : Node) : bool :=
  match kind node with Map _ => true | _ => false end.
Definition isSeq (node : Node) : bool :=
  match kind node with Seq _ => true | _ => false end.
End yaml.

Record Span := { start : Z; end_ : Z }.

(** [getYamlRange(node)], on the [range] property of its argument; [None]
    is a falsy argument. *)
Definition getYamlRange (node : option yaml.Range) : option Span :=
  match node with
  | None => None
  | Some (yaml.RangeArray elements) =>
      match elements !! 0%nat with
      | Some (Some start) =>
          let endCandidate := mjoin (elements !! 1%nat) in
          let end_ := match endCandidate with
                      | Some e => Some e
                      | None => mjoin (elements !! 2%nat)
                      end in
          match end_ with
          | Some e => Some {| start := start; end_ := e |}
          | None => None
          end
      | _ => None
      end
  | Some (yaml.RangeObject (Some s) (Some e)) => Some {| start := s; end_ := e |}
  | Some _ => None
  end.

(** [getYamlValue(node)]. *)
Definition getYamlValue (node : yaml.Node) : JsValue :=
  match yaml.value node with
  | VUndefined =>
      match yaml.toJSON node with
      | Some v => v
      | None => VNull
      end
  | v => v
  end.

Definition getYamlNodeType (node : yaml.Node) : TreeNodeType :=
  if yaml.isMap node then TObject
  else if yaml.isSeq node then TArray
  else match getYamlValue node with
       | VStr _ => TString
       | VNum _ => TNumber
       | VBool _ => TBoolean
       | _ => TNull
       end.

(** [getYamlPairKey(pair)]. *)
Definition getYamlPairKey (pair : yaml.Pair) : JsValue :=
  match yaml.pair_key pair with
  | None => VUndefined
  | Some key =>
      match yaml.key_value key with
      | VUndefined =>
          match yaml.key_toJSON key with
          | Some v => v
          | None => VStr (yaml.key_toString key)
          end
      | v => v
      end
  end.

(** The argument [pair.key || pair] of [getYamlRange]. *)
Definition keyOrPair (pair : yaml.Pair) : option yaml.Range :=
  match yaml.pair_key pair with
  | Some key => Some (yaml.key_range key)
  | None => Some (yaml.pair_range pair)
  end.

(** The branch of a pair with a value, after the recursive call. *)
Definition attachValue (current : ref) (pair : yaml.Pair) (built : option ref * Store) : Store :=
  match built with
  | (Some childNode, st) =>
      let st1 :=
        match getYamlRange (keyOrPair pair) with
        | Some keyRange =>
            setKeySpan childNode (Some (start keyRange))
              (Some (end_ keyRange - start keyRange)) st
        | None => st
        end in
      pushChild current childNode st1
  | (None, st) => st
  end.

(** The branch of a pair without a value: the [null] node made for it. *)
Definition nullNodeFor (current : ref) (currentOffset : Z) (pair : yaml.Pair) : TreeNode.t :=
  let keyRange := getYamlRange (keyOrPair pair) in
  let nullOffset := match keyRange with
                    | Some r => end_ r
                    | None => currentOffset
                    end in
  TreeNode.mk nullOffset 0 TNull VUndefined (Some current) (Some [])
    (getYamlPairKey pair)
    (option_map start keyRange)
    (Some (match keyRange with Some r => end_ r - start r | None => 0 end)).

Definition synthesizeNull (current : ref) (currentOffset : Z) (pair : yaml.Pair)
    (st : Store) : Store :=
  let '(nullNode, st1) := alloc (nullNodeFor current currentOffset pair) st in
  let st2 := nodeMap_set (TreeNode.offset (nullNodeFor current currentOffset pair)) nullNode st1 in
  pushChild current nullNode st2.

(** [buildYamlTree(node, parent, key)]. *)
Fixpoint buildYamlTree (node : yaml.Node) (parent : option ref) (key : JsValue)
    (st : Store) {struct node} : option ref * Store :=
  match getYamlRange (Some (yaml.range node)) with
  | None => (None, st)
  | Some range =>
      let '(current, st1) :=
        alloc (TreeNode.mk (start range) (end_ range - start range)
                 (getYamlNodeType node) (getYamlValue node)
                 parent (Some []) key None None) st in
      let st2 := nodeMap_set (start range) current st1 in
      let st3 :=
        match yaml.kind node with
        | yaml.Map items =>
            forEach (λ pair _ s,
              match yaml.pair_value pair with
              | Some value =>
                  attachValue current pair
                    (buildYamlTree value (Some current) (getYamlPairKey pair) s)
              | None => synthesizeNull current (start range) pair s
              end) items st2
        | yaml.Seq items =>
            forEach (λ item index s,
              pushBuilt current (buildYamlTree item (Some current) (VNum index) s))
              items st2
        | yaml.Scalar => st2
        end in
      (Some current, st3)
  end.

(** ** Strings of the host language *)

Definition backslash : ascii := "092"%char.

(** [s.length]. *)
Definition String_length (s : string) : Z := Z.of_nat (String.length s).

(** [s.slice(from, to)]: negative arguments count from the end, both are
    clamped to the string. *)
Definition slice (s : string) (from to : Z) : string :=
  let len := String_length s in
  let k := if from <? 0 then Z.max (len + from) 0 else Z.min from len in
  let final := if to <? 0 then Z.max (len + to) 0 else Z.min to len in
  String.substring (Z.to_nat k) (Z.to_nat (Z.max (final - k) 0)) s.

(** White space and line terminators among the code units below 256. *)
Definition isWhiteSpace (c : ascii) : bool :=
  let n := nat_of_ascii c in
  ((9 <=? n)%nat && (n <=? 13)%nat) || (n =? 32)%nat || (n =? 160)%nat.

Fixpoint trimStart (s : string) : string :=
  match s with
  | String c rest => if isWhiteSpace c then trimStart rest else s
  | EmptyString => EmptyString
  end.

Definition trimEnd (s : string) : string := String.rev (trimStart (String.rev s)).

(** [s.trim()]. *)
Definition trim (s : string) : string := trimEnd (trimStart s).

(** [s.startsWith(c)] for a one-character [c]. *)
Definition startsWith (s : string) (c : ascii) : bool :=
  match s with
  | String c' _ => bool_decide (c' = c)
  | EmptyString => false
  end.

Definition hexDigit (n : nat) : ascii :=
  ascii_of_nat (if (n <? 10)%nat then 48 + n else 87 + n).

(** [JSON.stringify] of a string: the quoted form, with the two-character
    escapes for backspace, tab, line feed, form feed, carriage return, the
    double quote and the backslash, and [\u00xx] for the other control
    characters. *)
Definition quoteJSONChar (c : ascii) : string :=
  let n := nat_of_ascii c in
  let escape (e : ascii) := String backslash (String e EmptyString) in
  if (n =? 8)%nat then escape "b"%char
  else if (n =? 9)%nat then escape "t"%char
  else if (n =? 10)%nat then escape "n"%char
  else if (n =? 12)%nat then escape "f"%char
  else if (n =? 13)%nat then escape "r"%char
  else if (n =? 34)%nat then escape dquote
  else if (n =? 92)%nat then escape backslash
  else if (n <? 32)%nat then
    String backslash (String "u"%char (String "0"%char (String "0"%char
      (String (hexDigit (n / 16)) (String (hexDigit (n mod 16)) EmptyString)))))
  else String c EmptyString.

Fixpoint quoteJSONChars (s : string) : string :=
  match s with
  | String c rest => quoteJSONChar c +:+ quoteJSONChars rest
  | EmptyString => EmptyString
  end.

Definition JSON_stringify (value : string) : string :=
  String dquote (quoteJSONChars value +:+ String dquote EmptyString).

(** ** The host editor *)

Module vscode.
(** The active editor's document: its text and its declared language. *)
Record TextDocument := {
  getText : string;
  languageId : string
}.

(** [document.positionAt(offset)]: a position is kept as the offset it
    stands for, clamped to the document. *)
Definition positionAt (document : TextDocument) (offset : Z) : Z :=
  Z.max 0 (Z.min offset (String_length (getText document))).

(** [new vscode.Range(a, b)] orders its two ends. *)
Record Range := { range_start : Z; range_end : Z }.

Definition newRange (a b : Z) : Range :=
  if b <? a then {| range_start := b; range_end := a |}
  else {| range_start := a; range_end := b |}.

(** [document.getText(range)]. *)
Definition getTextIn (document : TextDocument) (range : Range) : string :=
  String.substring (Z.to_nat (range_start range))
    (Z.to_nat (range_end range - range_start range)) (getText document).

Inductive TreeItemCollapsibleState := None_ | Collapsed | Expanded.

Record TreeItem := {
  label : string;
  collapsibleState : TreeItemCollapsibleState;
  command_arguments : Range;
  iconPath : option string;
  contextValue : TreeNodeType
}.

(** [editBuilder.replace(range, replacement)]. *)
Record TextEdit := { edit_range : Range; newText : string }.

(** The document text once the host has applied an edit. *)
Definition applyEdit (text : string) (edit : TextEdit) : string :=
  let a := Z.to_nat (range_start (edit_range edit)) in
  let b := Z.to_nat (range_end (edit_range edit)) in
  String.substring 0 a text +:+ newText edit
    +:+ String.substring b (String.length text - b) text.
End vscode.

(** ** The provider *)

Record Provider := {
  tree : option ref;
  text : string;
  editor : option vscode.TextDocument;
  languageId : option string;
  store : Store
}.

Definition deref (st : Store) (r : ref) : option TreeNode.t := heap st !! r.

(** [this.nodeMap.get(offset)], as the node object. *)
Definition nodeMap_get (st : Store) (offset : Z) : option (ref * TreeNode.t) :=
  r ← nodeMap st !! offset; node ← deref st r; Some (r, node).

Definition isYamlLanguage (languageId : option string) : bool :=
  bool_decide (languageId = Some "yaml"%string).

Module yamlDocument.
(** What [parseDocument] gives: it throws, or returns a document whose
    [contents] may be null. *)
Inductive Parsed :=
| Thrown
| Document (contents : option yaml.Node).
End yamlDocument.

Section Parsing.
(** The two parser libraries: [json.parseTree] of jsonc-parser and
    [parseDocument] of yaml. *)
Variable json_parseTree : string → option json.Node.
Variable yaml_parseDocument : string → yamlDocument.Parsed.

Definition parseYamlTree (text : string) (st : Store) : option ref * Store :=
  match yaml_parseDocument text with
  | yamlDocument.Document (Some contents) => buildYamlTree contents None VUndefined st
  | yamlDocument.Document None => (None, st)
  | yamlDocument.Thrown => (None, st)
  end.

(** [parseTree()], from the host's [activeTextEditor]. *)
Definition parseTree (activeTextEditor : option vscode.TextDocument) : Provider :=
  match activeTextEditor with
  | Some document =>
      let text := vscode.getText document in
      let languageId := Some (vscode.languageId document) in
      let '(tree, st) :=
        if isYamlLanguage languageId then parseYamlTree text emptyStore
        else match json_parseTree text with
             | Some parsedJson => buildJsonTree parsedJson None VUndefined emptyStore
             | None => (None, emptyStore)
             end in
      {| tree := tree; text := text; editor := activeTextEditor;
         languageId := languageId; store := st |}
  | None =>
      {| tree := None; text := EmptyString; editor := None;
         languageId := None; store := emptyStore |}
  end.
End Parsing.

(** ** The facade *)

Definition getChildrenOffsets (st : Store) (node : TreeNode.t) : list Z :=
  match TreeNode.children node with
  | Some children => omap (λ child, TreeNode.offset <$> deref st child) children
  | None => []
  end.

(** [offset] is truthy when it is given and not [0]. *)
Definition truthy (offset : option Z) : option Z :=
  match offset with
  | Some o => if o =? 0 then None else Some o
  | None => None
  end.

Definition getChildren (p : Provider) (offset : option Z) : result (list Z) :=
  match truthy offset, tree p with
  | Some o, Some _ =>
      match nodeMap_get (store p) o with
      | Some (_, node) => Returns (getChildrenOffsets (store p) node)
      | None => Returns []
      end
  | _, _ =>
      match tree p ≫= deref (store p) with
      | Some root => Returns (getChildrenOffsets (store p) root)
      | None => Returns []
      end
  end.

Definition getIcon (node : TreeNode.t) : option string :=
  match TreeNode.type node with
  | TBoolean => Some "boolean.svg"%string
  | TString => Some "string.svg"%string
  | TNumber => Some "number.svg"%string
  | _ => None
  end.

Definition getNodeChildrenCount (node : TreeNode.t) : string :=
  match TreeNode.children node with
  | Some children => Number_toString (Z.of_nat (List.length children))
  | None => EmptyString
  end.

(** [children.indexOf(node)], by object identity. *)
Definition indexOf (children : list ref) (node : ref) : Z :=
  match list_find (λ c, c = node) children with
  | Some (i, _) => Z.of_nat i
  | None => -1
  end.

(** The text of the node's span, [undefined] without an editor; and how a
    template literal prints it. *)
Definition spanText (p : Provider) (node : TreeNode.t) : option string :=
  document ← editor p;
  Some (vscode.getTextIn document
          (vscode.newRange
             (vscode.positionAt document (TreeNode.offset node))
             (vscode.positionAt document (TreeNode.offset node + TreeNode.length node)))).

Definition interpolate (value : option string) : string :=
  match value with
  | Some s => s
  | None => "undefined"%string
  end.

Definition mapResult {A B} (f : A → B) (r : result A) : result B :=
  match r with
  | Returns a => Returns (f a)
  | Throws m => Throws m
  end.

(** The parent when [node.parent?.type === 'array']. *)
Definition arrayParent (st : Store) (node : TreeNode.t) : option TreeNode.t :=
  parent ← TreeNode.parent node ≫= deref st;
  if bool_decide (TreeNode.type parent = TArray) then Some parent else None.

Definition getLabel (p : Provider) (r : ref) (node : TreeNode.t) : result string :=
  match arrayParent (store p) node with
  | Some parent =>
      let prefix :=
        match TreeNode.children parent with
        | Some children => Returns (Number_toString (indexOf children r))
        | None =>
            match TreeNode.key node with
            | VUndefined | VNull => Returns EmptyString
            | key => toString key
            end
        end in
      match TreeNode.type node with
      | TObject =>
          mapResult (λ prefix, prefix +:+ ": { " +:+ getNodeChildrenCount node +:+ " }") prefix
      | TArray =>
          mapResult (λ prefix, prefix +:+ ": [ " +:+ getNodeChildrenCount node +:+ " ]") prefix
      | _ =>
          mapResult (λ prefix, prefix +:+ ":" +:+ interpolate (spanText p node)) prefix
      end
  | None =>
      let property :=
        match TreeNode.key node with
        | VUndefined => Returns EmptyString
        | key => toString key
        end in
      match TreeNode.type node with
      | TObject =>
          mapResult (λ property, "{ " +:+ getNodeChildrenCount node +:+ " } " +:+ property) property
      | TArray =>
          mapResult (λ property, "[ " +:+ getNodeChildrenCount node +:+ " ] " +:+ property) property
      | _ =>
          mapResult (λ property, property +:+ ": " +:+ interpolate (spanText p node)) property
      end
  end.

Definition getTreeItem (p : Provider) (offset : Z) : result vscode.TreeItem :=
  match tree p, editor p with
  | None, _ => Throws "Invalid tree"
  | Some _, None => Throws "Invalid editor"
  | Some _, Some document =>
      match nodeMap_get (store p) offset with
      | Some (r, valueNode) =>
          mapResult (λ label,
            {| vscode.label := label;
               vscode.collapsibleState :=
                 match TreeNode.type valueNode with
                 | TObject => vscode.Expanded
                 | TArray => vscode.Collapsed
                 | _ => vscode.None_
                 end;
               vscode.command_arguments :=
                 vscode.newRange
                   (vscode.positionAt document (TreeNode.offset valueNode))
                   (vscode.positionAt document
                      (TreeNode.offset valueNode + TreeNode.length valueNode));
               vscode.iconPath := getIcon valueNode;
               vscode.contextValue := TreeNode.type valueNode |})
            (getLabel p r valueNode)
      | None => Throws ("Could not find node at " +:+ Number_toString offset)
      end
  end.

(** ** Rename *)

(** [formatYamlKey(value, node)], on the text cached by the last parse. *)
Definition formatYamlKey (text : string) (value : string) (node : TreeNode.t) : string :=
  match TreeNode.keyOffset node, TreeNode.keyLength node with
  | Some keyOffset, Some keyLength =>
      let existing := slice text keyOffset (keyOffset + keyLength) in
      let trimmed := trim existing in
      if startsWith trimmed dquote || startsWith trimmed squote then
        match trimmed with
        | String quote _ => String quote (value +:+ String quote EmptyString)
        | EmptyString => value
        end
      else value
  | _, _ => value
  end.

(** [rename(offset)], given what the input box resolved to ([None] when
    the prompt was dismissed): the edit handed to the editor, if any. *)
Definition rename (p : Provider) (offset : Z) (value : option string)
    : result (option vscode.TextEdit) :=
  match value, editor p, tree p, nodeMap_get (store p) offset with
  | Some value, Some document, Some _, Some (_, targetNode) =>
      match arrayParent (store p) targetNode,
            TreeNode.keyOffset targetNode, TreeNode.keyLength targetNode with
      | None, Some keyOffset, Some keyLength =>
          let range :=
            vscode.newRange (vscode.positionAt document keyOffset)
              (vscode.positionAt document (keyOffset + keyLength)) in
          let replacement :=
            if isYamlLanguage (languageId p) then formatYamlKey (text p) value targetNode
            else JSON_stringify value in
          Returns (Some {| vscode.edit_range := range; vscode.newText := replacement |})
      | _, _, _ => Returns None
      end
  | _, _, _, _ => Returns None
  end.

(** The document text after [rename]: the host applies the edit, if one was
    made. *)
Definition textAfterRename (p : Provider) (document : vscode.TextDocument)
    (offset : Z) (value : option string) : result string :=
  mapResult (λ edit,
    match edit with
    | Some e => vscode.applyEdit (vscode.getText document) e
    | None => vscode.getText document
    end) (rename p offset value).

(** * Notions used in the proofs, and sample documents *)

(** ** Induction over the syntax trees *)

Definition json_subnodes (node : json.Node) : list json.Node :=
  default [] (json.children node).

Definition yaml_subnodes (node : yaml.Node) : list yaml.Node :=
  match yaml.kind node with
  | yaml.Map items => omap yaml.pair_value items
  | yaml.Seq items => items
  | yaml.Scalar => []
  end.

(** ** What a build step may change *)

(** The fields set once, when the object is made. *)
Definition same_identity (n n' : TreeNode.t) : Prop :=
  TreeNode.offset n' = TreeNode.offset n
  ∧ TreeNode.length n' = TreeNode.length n
  ∧ TreeNode.type n' = TreeNode.type n
  ∧ TreeNode.value n' = TreeNode.value n
  ∧ TreeNode.parent n' = TreeNode.parent n
  ∧ TreeNode.key n' = TreeNode.key n.

(** [children] only ever gets pushed to. *)
Definition children_grow (n n' : TreeNode.t) : Prop :=
  ∀ cs, TreeNode.children n = Some cs →
    ∃ more, TreeNode.children n' = Some (cs ++ more).

Definition node_grows (n n' : TreeNode.t) : Prop :=
  same_identity n n' ∧ children_grow n n'.

(** [st'] comes after [st]: the objects of [st] are still there, with the
    same identity and at least the same children, and no key has left the
    index. *)
Record grows (st st' : Store) : Prop := {
  grows_node i n :
    heap st !! i = Some n → ∃ n', heap st' !! i = Some n' ∧ node_grows n n';
  grows_index k :
    is_Some (nodeMap st !! k) → is_Some (nodeMap st' !! k)
}.

(** ** The shape of a store under construction *)

Definition container (t : TreeNodeType) : Prop := t = TObject ∨ t = TArray.

Record wf (st : Store) : Prop := {
  (* every object was entered in the index, at its offset *)
  wf_indexed i n :
    heap st !! i = Some n → is_Some (nodeMap st !! TreeNode.offset n);
  (* an index entry at [k] is an object whose offset is [k] *)
  wf_index k r :
    nodeMap st !! k = Some r → ∃ n, heap st !! r = Some n ∧ TreeNode.offset n = k;
  (* children are there, are objects of the store, and only a container has any *)
  wf_children i n :
    heap st !! i = Some n →
    ∃ cs, TreeNode.children n = Some cs
          ∧ Forall (λ c, (c < List.length (heap st))%nat) cs
          ∧ (cs ≠ [] → container (TreeNode.type n))
}.

(** A new object, entered in the index at once. *)
Definition newNode (n : TreeNode.t) (st : Store) : Store :=
  nodeMap_set (TreeNode.offset n) (List.length (heap st)) (alloc n st).2.

(** [r] is a container object of the store. *)
Definition is_container (st : Store) (r : ref) : Prop :=
  ∃ n, heap st !! r = Some n ∧ container (TreeNode.type n).

(** ** The builders, one call at a time *)

(** The object the JSON builder makes for a node it does not collapse. *)
Definition jsonTreeNode (node : json.Node) (parent : option ref) (key : JsValue) : TreeNode.t :=
  TreeNode.mk (json.offset node) (json.length node)
    (normalizeNodeType (json.type node)) (json.value node)
    parent (Some []) key None None.

(** The property case applies: [node.type === 'property' &&
    node.children?.length]. *)
Definition collapses (node : json.Node) : bool :=
  match json.type node, json.children node with
  | json.property, Some (_ :: _) => true
  | _, _ => false
  end.

(** The two loops over [node.children]. *)
Definition buildJsonChildren (node : json.Node) (current : ref) (st : Store) : Store :=
  match json.children node with
  | Some children =>
      match json.type node with
      | json.object =>
          forEach (λ child _ s,
            pushBuilt current (buildJsonTree child (Some current) VUndefined s))
            children st
      | json.array =>
          forEach (λ childNode index s,
            pushBuilt current (buildJsonTree childNode (Some current) (VNum index) s))
            children st
      | _ => st
      end
  | None => st
  end.

(** The object the YAML builder makes for a node with a span. *)
Definition yamlTreeNode (node : yaml.Node) (span : Span) (parent : option ref)
    (key : JsValue) : TreeNode.t :=
  TreeNode.mk (start span) (end_ span - start span)
    (getYamlNodeType node) (getYamlValue node)
    parent (Some []) key None None.

(** One turn of the loop over the pairs of a mapping. *)
Definition buildYamlPair (current : ref) (currentOffset : Z) (pair : yaml.Pair)
    (st : Store) : Store :=
  match yaml.pair_value pair with
  | Some value =>
      attachValue current pair
        (buildYamlTree value (Some current) (getYamlPairKey pair) st)
  | None => synthesizeNull current currentOffset pair st
  end.

Definition buildYamlPairs (current : ref) (currentOffset : Z) (items : list yaml.Pair)
    (st : Store) : Store :=
  forEach (λ pair _, buildYamlPair current currentOffset pair) items st.

Definition buildYamlItems (current : ref) (items : list yaml.Node) (st : Store) : Store :=
  forEach (λ item index s,
    pushBuilt current (buildYamlTree item (Some current) (VNum index) s)) items st.

Definition buildYamlChildren (node : yaml.Node) (current : ref) (currentOffset : Z)
    (st : Store) : Store :=
  match yaml.kind node with
  | yaml.Map items => buildYamlPairs current currentOffset items st
  | yaml.Seq items => buildYamlItems current items st
  | yaml.Scalar => st
  end.

(** A call leaves a well-formed store that comes after the one it started
    from, and what it returns is an object of that store. *)
Definition built_ok (s : Store) (built : option ref * Store) : Prop :=
  wf built.2 ∧ grows s built.2
  ∧ ∀ c, built.1 = Some c → (c < List.length (heap built.2))%nat.

(** The loops of the generic case, given that every child builds well. *)
Definition builds_ok {A} (build : A → option ref → JsValue → Store → option ref * Store)
    (x : A) : Prop :=
  ∀ parent key s, wf s → built_ok s (build x parent key s).

(** ** Sample documents *)

(** The tree jsonc-parser makes of the text [[1]]. *)
Definition sample_array : json.Node :=
  json.mk json.array VUndefined 0 3 (Some [json.mk json.number (VNum 1) 1 1 None]).

(** The text of a one-property object, key [a] and value [1], and its tree:
    the property spans the key and the value, the key is a string node. *)
Definition quoted (s : string) : string := String dquote (s +:+ String dquote EmptyString).

Definition sample_object_text : string := "{" +:+ quoted "a" +:+ ":1}".

Definition sample_object : json.Node :=
  json.mk json.object VUndefined 0 7
    (Some [json.mk json.property VUndefined 1 5
             (Some [json.mk json.string (VStr "a") 1 3 None;
                    json.mk json.number (VNum 1) 5 1 None])]).

(** An object with a number and an array of a boolean and a null, keys [a]
    and [b], with a space after each colon and comma; and its tree. *)
Definition sample_nested_text : string :=
  "{" +:+ quoted "a" +:+ ": 1, " +:+ quoted "b" +:+ ": [true, null]}".

Definition sample_nested : json.Node :=
  json.mk json.object VUndefined 0 27
    (Some [json.mk json.property VUndefined 1 6
             (Some [json.mk json.string (VStr "a") 1 3 None;
                    json.mk json.number (VNum 1) 6 1 None]);
           json.mk json.property VUndefined 9 17
             (Some [json.mk json.string (VStr "b") 9 3 None;
                    json.mk json.array VUndefined 14 12
                      (Some [json.mk json.boolean (VBool true) 15 4 None;
                             json.mk json.null VNull 21 4 None])])]).

Definition sample_json_parseTree (text : string) : option json.Node :=
  if bool_decide (text = "[1]"%string) then Some sample_array
  else if bool_decide (text = sample_object_text) then Some sample_object
  else if bool_decide (text = sample_nested_text) then Some sample_nested
  else None.

(** The flow mapping [{a}]: one entry, the key [a] at [1, 2), no value. *)
Definition sample_flow_map : yaml.Node :=
  yaml.mk (yaml.RangeArray [Some 0; Some 3; Some 3]) VUndefined (Some (VObj "[object Object]"))
    (yaml.Map [yaml.mkPair
                 (Some (yaml.mkKey (yaml.RangeArray [Some 1; Some 2; Some 2])
                          (VStr "a") (Some (VStr "a")) "a"))
                 None yaml.RangeAbsent]).

(** A mapping whose one entry has no value and a key without a range. *)
Definition sample_spanless_key : yaml.Node :=
  yaml.mk (yaml.RangeArray [Some 0; Some 2; Some 2]) VUndefined (Some (VObj "[object Object]"))
    (yaml.Map [yaml.mkPair
                 (Some (yaml.mkKey yaml.RangeAbsent (VStr "a") (Some (VStr "a")) "a"))
                 None yaml.RangeAbsent]).

(** A sequence whose one item is a mapping of a single entry, an empty key
    without a value: the key is empty at offset 2 and the mapping takes the
    key's range. *)
Definition sample_empty_key : yaml.Node :=
  yaml.mk (yaml.RangeArray [Some 0; Some 4; Some 4]) VUndefined (Some (VObj "[object Object]"))
    (yaml.Seq [yaml.mk (yaml.RangeArray [Some 2; Some 2; Some 2]) VUndefined
                 (Some (VObj "[object Object]"))
                 (yaml.Map [yaml.mkPair
                              (Some (yaml.mkKey (yaml.RangeArray [Some 2; Some 2; Some 2])
                                       VNull (Some VNull) EmptyString))
                              None yaml.RangeAbsent])]).

(** A block mapping with a double-quoted key: the key [old], quoted, at
    [0, 5), and the value [1] at [7, 8). *)
Definition sample_quoted_text : string := quoted "old" +:+ ": 1".

Definition sample_quoted_map : yaml.Node :=
  yaml.mk (yaml.RangeArray [Some 0; Some 8; Some 8]) VUndefined (Some (VObj "[object Object]"))
    (yaml.Map [yaml.mkPair
                 (Some (yaml.mkKey (yaml.RangeArray [Some 0; Some 5; Some 5])
                          (VStr "old") (Some (VStr "old")) "old"))
                 (Some (yaml.mk (yaml.RangeArray [Some 7; Some 8; Some 8]) (VNum 1)
                          (Some (VNum 1)) yaml.Scalar))
                 yaml.RangeAbsent]).

Definition sample_yaml_parseDocument (text : string) : yamlDocument.Parsed :=
  if bool_decide (text = "{a}"%string) then yamlDocument.Document (Some sample_flow_map)
  else if bool_decide (text = sample_quoted_text) then yamlDocument.Document (Some sample_quoted_map)
  else yamlDocument.Document None.

Definition sample_parse (text languageId : string) : Provider :=
  parseTree sample_json_parseTree sample_yaml_parseDocument
    (Some {| vscode.getText := text; vscode.languageId := languageId |}).

(** A YAML document whose contents are [sample_spanless_key]. *)
Definition sample_spanless_parse : Provider :=
  parseTree sample_json_parseTree
    (λ _, yamlDocument.Document (Some sample_spanless_key))
    (Some {| vscode.getText := "a"; vscode.languageId := "yaml" |}).

(** ** Labels *)


(** ** The built tree *)

(** The objects of the tree under [root], following [children]. *)
Inductive reachable (st : Store) (root : ref) : ref → Prop :=
| reachable_root : reachable st root root
| reachable_child r n children child :
    reachable st root r →
    deref st r = Some n →
    TreeNode.children n = Some children →
    child ∈ children →
    reachable st root child.

(** ** What a builder call adds to the store *)

(** A call that returns a node returns the next object of the store and
    leaves the objects that were there as they were; a call that returns
    nothing leaves the store as it was. *)
Definition only_adds (s : Store) (built : option ref * Store) : Prop :=
  match built.1 with
  | Some c =>
      c = List.length (heap s)
      ∧ heap s `prefix_of` heap built.2
      ∧ (c < List.length (heap built.2))%nat
  | None => built.2 = s
  end.

Definition adds_only {A} (build : A → option ref → JsValue → Store → option ref * Store)
    (x : A) : Prop :=
  ∀ parent key s, only_adds s (build x parent key s).

(** What the loop over the children of [current] leaves alone: every
    object that was there, but [current]. *)
Definition untouched (current : ref) (s1 s2 : Store) : Prop :=
  (List.length (heap s1) ≤ List.length (heap s2))%nat
  ∧ ∀ i, (i < List.length (heap s1))%nat → i ≠ current → heap s2 !! i = heap s1 !! i.

(** ** The links of the built tree *)

(** The parent and the children of the object [i]. *)
Definition shape (st : Store) (i : ref) : option (option ref * option (list ref)) :=
  (λ n, (TreeNode.parent n, TreeNode.children n)) <$> heap st !! i.

(** The objects from [c] on hang together under [c]: each one after [c] has
    as parent an earlier object, not before [c], that lists it among its
    children; and the children an object lists are later objects whose
    parent it is. *)
Definition tree_from (st : Store) (c : ref) : Prop :=
  (∀ i par chi, (c < i)%nat → shape st i = Some (par, chi) →
     ∃ j pj cs, par = Some j ∧ (c ≤ j < i)%nat
                ∧ shape st j = Some (pj, Some cs) ∧ i ∈ cs)
  ∧ (∀ j pj cs i, (c ≤ j)%nat → shape st j = Some (pj, Some cs) → i ∈ cs →
     (j < i)%nat ∧ ∃ chi, shape st i = Some (Some j, chi)).

(** What a call returns is the root of such a tree, with the parent the
    call was given. *)
Definition builds_tree (parent : option ref) (built : option ref * Store) : Prop :=
  ∀ c, built.1 = Some c →
    (∃ chi, shape built.2 c = Some (parent, chi)) ∧ tree_from built.2 c.

Definition tree_builder {A} (build : A → option ref → JsValue → Store → option ref * Store)
    (x : A) : Prop :=
  ∀ parent key s, builds_tree parent (build x parent key s).

(** The loop over the children of [current], at a store [st]: [current]
    has the parent it was made with and a list of children, and the
    objects from [current] on hang together. *)
Definition under_construction (parent : option ref) (current : ref) (st : Store) : Prop :=
  (∃ cs, shape st current = Some (parent, Some cs)) ∧ tree_from st current.

(** The JSON nodes no object is made for: a property node, with a key child,
    whose value child is missing or is such a node itself. *)
Fixpoint isDropped (node : json.Node) : bool :=
  match json.type node, json.children node with
  | json.property, Some (_ :: rest) =>
      match rest with
      | valueNode :: _ => isDropped valueNode
      | [] => true
      end
  | _, _ => false
  end.

(** A mapping whose key decodes to [null], with the value [1]: the ranges
    are those of the text [null: 1]. *)
Definition sample_null_key : yaml.Node :=
  yaml.mk (yaml.RangeArray [Some 0; Some 7; Some 7]) VUndefined (Some (VObj "[object Object]"))
    (yaml.Map [yaml.mkPair
                 (Some (yaml.mkKey (yaml.RangeArray [Some 0; Some 4; Some 4])
                          VNull (Some VNull) "null"))
                 (Some (yaml.mk (yaml.RangeArray [Some 6; Some 7; Some 7]) (VNum 1)
                          (Some (VNum 1)) yaml.Scalar))
                 yaml.RangeAbsent]).

Definition sample_null_key_parse : Provider :=
  parseTree sample_json_parseTree
    (λ _, yamlDocument.Document (Some sample_null_key))
    (Some {| vscode.getText := "null: 1"; vscode.languageId := "yaml" |}).

(** ** The children a loop pushes *)

(** [current] is an object with a list of children. *)
Definition ready (current : ref) (s : Store) : Prop :=
  ∃ n cs, heap s !! current = Some n ∧ TreeNode.children n = Some cs.

(** One turn that makes a child: the next object of the store is a node
    with the property [P], it is pushed to the children of [current], and
    nothing else that was there has changed. *)
Definition adds_child (current : ref) (P : TreeNode.t → Prop) (s s' : Store) : Prop :=
  ∃ n cs child,
    heap s !! current = Some n ∧ TreeNode.children n = Some cs
    ∧ heap s' !! current
      = Some (with_children (Some (cs ++ [List.length (heap s)])) n)
    ∧ heap s' !! List.length (heap s) = Some child ∧ P child
    ∧ untouched current s s'.

(** The items of a loop that make a child, each with its index. *)
Fixpoint keptFrom {A} (kept : A → bool) (index : Z) (items : list A) : list (Z * A) :=
  match items with
  | [] => []
  | x :: rest =>
      (if kept x then [(index, x)] else []) ++ keptFrom kept (index + 1) rest
  end.

(** The node [buildJsonTree] returns for a syntax node, as it is made,
    before children are pushed to it: the node of the value at the end of a
    chain of properties, with the last key as key and the first key's span
    as key span. *)
Fixpoint jsonRoot (node : json.Node) (parent : option ref) (key : JsValue)
    : option TreeNode.t :=
  match json.type node, json.children node with
  | json.property, Some (keyNode :: rest) =>
      match rest with
      | valueNode :: _ =>
          (λ n, with_keyLength (Some (json.length keyNode))
                  (with_keyOffset (Some (json.offset keyNode)) n))
            <$> jsonRoot valueNode parent (json.value keyNode)
      | [] => None
      end
  | _, _ => Some (jsonTreeNode node parent key)
  end.

(** The key the loops of the JSON builder pass for the child at [index]. *)
Definition jsonChildKey (type : json.NodeType) (index : Z) : JsValue :=
  match type with
  | json.array => VNum index
  | _ => VUndefined
  end.

(** The YAML entries that make a child: those without a value, and those
    whose value has a range that resolves. *)
Definition entryKept (pair : yaml.Pair) : bool :=
  match yaml.pair_value pair with
  | Some value => bool_decide (is_Some (getYamlRange (Some (yaml.range value))))
  | None => true
  end.

Definition itemKept (item : yaml.Node) : bool :=
  bool_decide (is_Some (getYamlRange (Some (yaml.range item)))).

(** The key span the builder records on the child of an entry with a value. *)
Definition stampEntry (pair : yaml.Pair) (n : TreeNode.t) : TreeNode.t :=
  match getYamlRange (keyOrPair pair) with
  | Some keyRange =>
      with_keyLength (Some (end_ keyRange - start keyRange))
        (with_keyOffset (Some (start keyRange)) n)
  | None => n
  end.

(** The child made for an entry of a mapping, up to its own children. *)
Definition entryChild (current : ref) (currentOffset : Z) (pair : yaml.Pair)
    (n : TreeNode.t) : Prop :=
  match yaml.pair_value pair with
  | Some value =>
      ∃ span cs,
        getYamlRange (Some (yaml.range value)) = Some span
        ∧ n = stampEntry pair
                (with_children (Some cs)
                   (yamlTreeNode value span (Some current) (getYamlPairKey pair)))
  | None => n = nullNodeFor current currentOffset pair
  end.

(** The child made for an item of a sequence, up to its own children. *)
Definition itemChild (current : ref) (index : Z) (item : yaml.Node) (n : TreeNode.t) : Prop :=
  ∃ span cs,
    getYamlRange (Some (yaml.range item)) = Some span
    ∧ n = with_children (Some cs) (yamlTreeNode item span (Some current) (VNum index)).

(** The child made for a child of a JSON object or array, up to its own
    children. *)
Definition jsonChild (current : ref) (type : json.NodeType) (index : Z)
    (child : json.Node) (n : TreeNode.t) : Prop :=
  ∃ t cs,
    jsonRoot child (Some current) (jsonChildKey type index) = Some t
    ∧ n = with_children (Some cs) t.

(** The children of a syntax node that the loops of the JSON builder go
    through: those of an object and of an array. *)
Definition jsonLoopItems (node : json.Node) : list json.Node :=
  match json.children node with
  | Some children =>
      match json.type node with
      | json.object | json.array => children
      | _ => []
      end
  | None => []
  end.

Definition jsonKept (child : json.Node) : bool := negb (isDropped child).

(** ** The index, from the objects made *)

(** The index after the offsets of the objects from [i] on are entered, in
    the order the objects were made. *)
Fixpoint enter (i : ref) (offsets : list Z) (m : gmap Z ref) : gmap Z ref :=
  match offsets with
  | [] => m
  | k :: rest => enter (S i) rest (<[k := i]> m)
  end.

(** The index is what entering every object of the store, at the offset it
    has, gives. *)
Definition index_follows_heap (st : Store) : Prop :=
  nodeMap st = enter 0 (TreeNode.offset <$> heap st) ∅.

(** ** The provider in its host *)

Module host.
(** [vscode.window.activeTextEditor]: its document, and of the document's
    uri what the provider reads, [scheme] and [toString()]. *)
Record TextEditor := {
  document : vscode.TextDocument;
  uri_scheme : string;
  uri_toString : string
}.

(** What the provider asks of the host: [_onDidChangeTreeData.fire(x)] and
    [executeCommand('setContext', 'jsonTreeEnabled', enabled)]. *)
Inductive Request :=
| fire (element : option Z)
| setContext (enabled : bool).

(** What the host calls the provider for: the three subscriptions of the
    constructor, the [refresh] command, and the timer [rename] sets once the
    edit is made. *)
Inductive Event :=
| DidChangeActiveTextEditor
| DidChangeTextDocument (uri : string)
| DidChangeConfiguration (autorefresh : bool)
| Refresh (offset : option Z)
| RenameTimeout (offset : Z).
End host.

(** The fields of the provider: those a parse sets, [provider], with the uri
    of [this.editor]'s document beside it; [autoRefresh]; and the requests
    made to the host so far, oldest first.  [provider] is kept as the last
    parse left it: its [tree], [text], [languageId] and [store] are fields
    that only a parse assigns, and its [editor] is the document as that
    parse read it.  The live document of [this.editor], which an edit
    changes without a parse, is not part of a session, and no statement
    about a session reads it. *)
Record Session := {
  provider : Provider;
  editorUri : option string;
  autoRefresh : bool;
  requests : list host.Request
}.

Definition request (r : host.Request) (s : Session) : Session :=
  {| provider := provider s; editorUri := editorUri s;
     autoRefresh := autoRefresh s; requests := requests s ++ [r] |}.

Definition with_autoRefresh (autorefresh : bool) (s : Session) : Session :=
  {| provider := provider s; editorUri := editorUri s;
     autoRefresh := autorefresh; requests := requests s |}.

(** The test of [onActiveEditorChanged] on the language id. *)
Definition jsonTreeEnabled (languageId : string) : bool :=
  bool_decide (languageId = "json"%string)
  || bool_decide (languageId = "jsonc"%string)
  || bool_decide (languageId = "yaml"%string).

Section Host.
Variable json_parseTree : string → option json.Node.
Variable yaml_parseDocument : string → yamlDocument.Parsed.

(** [this.parseTree()], with the host's [activeTextEditor] at the time. *)
Definition parse (activeTextEditor : option host.TextEditor) (s : Session) : Session :=
  {| provider := parseTree json_parseTree yaml_parseDocument
                   (host.document <$> activeTextEditor);
     editorUri := host.uri_toString <$> activeTextEditor;
     autoRefresh := autoRefresh s; requests := requests s |}.

(** [refresh(offset)]. *)
Definition refresh (activeTextEditor : option host.TextEditor) (offset : option Z)
    (s : Session) : Session :=
  request (host.fire (truthy offset)) (parse activeTextEditor s).

(** [onActiveEditorChanged()]. *)
Definition onActiveEditorChanged (activeTextEditor : option host.TextEditor)
    (s : Session) : Session :=
  let s1 :=
    match activeTextEditor with
    | Some active =>
        if bool_decide (host.uri_scheme active = "file"%string)
        then request (host.setContext
                        (jsonTreeEnabled (vscode.languageId (host.document active)))) s
        else s
    | None => request (host.setContext false) s
    end in
  refresh activeTextEditor None s1.

(** [onDocumentChanged(changeEvent)], [uri] being
    [changeEvent.document.uri.toString()]. *)
Definition onDocumentChanged (activeTextEditor : option host.TextEditor) (uri : string)
    (s : Session) : Session :=
  match tree (provider s) with
  | Some _ =>
      if autoRefresh s && bool_decide (Some uri = editorUri s)
      then request (host.fire None) (parse activeTextEditor s)
      else s
  | None => s
  end.

(** The constructor, [autorefresh] being what the configuration gives for
    [JSON-zain.json.autorefresh] (by default [false]). *)
Definition constructor (activeTextEditor : option host.TextEditor) (autorefresh : bool)
    : Session :=
  let s0 :=
    {| provider := {| tree := None; text := EmptyString; editor := None;
                      languageId := None; store := emptyStore |};
       editorUri := None; autoRefresh := true; requests := [] |} in
  onActiveEditorChanged activeTextEditor
    (with_autoRefresh autorefresh (parse activeTextEditor s0)).

(** One call from the host, [ev.1] being the active editor at that time. *)
Definition handle (s : Session) (ev : option host.TextEditor * host.Event) : Session :=
  match ev.2 with
  | host.DidChangeActiveTextEditor => onActiveEditorChanged ev.1 s
  | host.DidChangeTextDocument uri => onDocumentChanged ev.1 uri s
  | host.DidChangeConfiguration autorefresh => with_autoRefresh autorefresh s
  | host.Refresh offset => refresh ev.1 offset s
  | host.RenameTimeout offset => refresh ev.1 (Some offset) (parse ev.1 s)
  end.

Definition run (s : Session) (events : list (option host.TextEditor * host.Event))
    : Session :=
  foldl handle s events.
End Host.

(** The events that neither the user's commands nor a change of editor
    bring: edits of a document and changes of the configuration. *)
Definition isEditOrSetting (event : host.Event) : bool :=
  match event with
  | host.DidChangeTextDocument _ | host.DidChangeConfiguration _ => true
  | _ => false
  end.

(** An editor on a file with the given text and language. *)
Definition sample_editor (text languageId : string) : host.TextEditor :=
  {| host.document := {| vscode.getText := text; vscode.languageId := languageId |};
     host.uri_scheme := "file"; host.uri_toString := "file:///sample" |}.

(** * Properties *)

(** ** Induction over the syntax trees, and the loops *)

Lemma json_Node_ind (P : json.Node → Prop) :
  (∀ node, Forall P (json_subnodes node) → P node) →
  ∀ node, P node.
Proof.
  intros step. fix IH 1. intros [type value offset length children].
  apply step. unfold json_subnodes. simpl.
  destruct children as [cs|]; simpl; [|constructor].
  induction cs as [|c cs IHcs]; constructor; [apply IH | exact IHcs].
Qed.

Lemma yaml_Node_ind (P : yaml.Node → Prop) :
  (∀ node, Forall P (yaml_subnodes node) → P node) →
  ∀ node, P node.
Proof.
  intros step. fix IH 1. intros [range value toJSON kind].
  apply step. unfold yaml_subnodes. simpl.
  destruct kind as [items|items|]; [| |constructor].
  - induction items as [|[k [v|] r] items IHitems]; simpl;
      [constructor| |exact IHitems].
    constructor; [apply IH | exact IHitems].
  - induction items as [|item items IHitems]; constructor; [apply IH | exact IHitems].
Qed.

(** The loops keep whatever every iteration keeps. *)
Lemma forEachFrom_invariant {A} (body : A → Z → Store → Store) (Q : Store → Prop)
    (items : list A) :
  Forall (λ x, ∀ index s, Q s → Q (body x index s)) items →
  ∀ index s, Q s → Q (forEachFrom body index items s).
Proof.
  induction 1 as [|x items Hx _ IH]; intros index s Hs; simpl; [done|].
  apply IH, Hx, Hs.
Qed.

Lemma forEachFrom_app {A} (body : A → Z → Store → Store) (xs ys : list A) index s :
  forEachFrom body index (xs ++ ys) s
  = forEachFrom body (index + Z.of_nat (List.length xs)) ys (forEachFrom body index xs s).
Proof.
  revert index s. induction xs as [|x xs IH]; intros index s; simpl.
  - by rewrite Z.add_0_r.
  - rewrite IH. f_equal. lia.
Qed.

(** ** Every store operation lets the store grow *)

Lemma node_grows_refl n : node_grows n n.
Proof.
  split; [by repeat split|]. intros cs Hcs. exists []. by rewrite app_nil_r.
Qed.

Lemma node_grows_trans n1 n2 n3 :
  node_grows n1 n2 → node_grows n2 n3 → node_grows n1 n3.
Proof.
  intros [(?&?&?&?&?&?) Hc12] [(?&?&?&?&?&?) Hc23]. split.
  - repeat split; congruence.
  - intros cs Hcs. destruct (Hc12 _ Hcs) as [m1 Hm1].
    destruct (Hc23 _ Hm1) as [m2 Hm2]. exists (m1 ++ m2). by rewrite app_assoc.
Qed.

Lemma grows_refl st : grows st st.
Proof. split; [|done]. intros i n Hn. exists n. split; [done|apply node_grows_refl]. Qed.

Lemma grows_trans st1 st2 st3 : grows st1 st2 → grows st2 st3 → grows st1 st3.
Proof.
  intros [Hn12 Hi12] [Hn23 Hi23]. split.
  - intros i n Hn. destruct (Hn12 _ _ Hn) as (n' & Hn' & Hg).
    destruct (Hn23 _ _ Hn') as (n'' & Hn'' & Hg').
    exists n''. split; [done|]. by eapply node_grows_trans.
  - auto.
Qed.

Lemma grows_length st st' : grows st st' → (List.length (heap st) ≤ List.length (heap st'))%nat.
Proof.
  intros [Hn _].
  destruct (decide (List.length (heap st) ≤ List.length (heap st'))%nat) as [|Hlt]; [done|].
  destruct (lookup_lt_is_Some_2 (heap st) (List.length (heap st'))) as [n Hi]; [lia|].
  destruct (Hn _ _ Hi) as (n' & Hn' & _). apply lookup_lt_Some in Hn'. lia.
Qed.

Lemma grows_alloc n st : grows st (alloc n st).2.
Proof.
  split; simpl; [|done]. intros i n0 Hn0. exists n0.
  split; [by apply lookup_app_l_Some|apply node_grows_refl].
Qed.

Lemma grows_nodeMap_set k r st : grows st (nodeMap_set k r st).
Proof.
  split; simpl.
  - intros i n Hn. exists n. split; [done|apply node_grows_refl].
  - intros k' Hk'. rewrite lookup_insert. by case_decide.
Qed.

Lemma grows_update r f st : (∀ n, node_grows n (f n)) → grows st (update r f st).
Proof.
  intros Hf. split; simpl; [|done]. intros i n Hn.
  destruct (decide (r = i)) as [->|Hne].
  - exists (f n). rewrite list_lookup_alter_eq, Hn. split; [done|apply Hf].
  - exists n. rewrite list_lookup_alter_ne by done. split; [done|apply node_grows_refl].
Qed.

Lemma node_grows_push c n : node_grows n (push c n).
Proof.
  split; [by repeat split|]. intros cs Hcs. exists [c].
  unfold push. simpl. by rewrite Hcs.
Qed.

Lemma node_grows_with_keyOffset ko n : node_grows n (with_keyOffset ko n).
Proof. split; [by repeat split|]. intros cs Hcs. exists []. by rewrite app_nil_r. Qed.

Lemma node_grows_with_keyLength kl n : node_grows n (with_keyLength kl n).
Proof. split; [by repeat split|]. intros cs Hcs. exists []. by rewrite app_nil_r. Qed.

Lemma grows_pushChild current child st : grows st (pushChild current child st).
Proof. apply grows_update, node_grows_push. Qed.

Lemma grows_setKeySpan child ko kl st : grows st (setKeySpan child ko kl st).
Proof.
  eapply grows_trans; apply grows_update;
    [apply node_grows_with_keyOffset|apply node_grows_with_keyLength].
Qed.

(** ** Every store operation keeps the store well formed *)

Lemma wf_empty : wf emptyStore.
Proof. split; simpl; intros *; [rewrite lookup_nil|rewrite lookup_empty|rewrite lookup_nil]; done. Qed.

Lemma grows_newNode n st : grows st (newNode n st).
Proof. eapply grows_trans; [apply grows_alloc|apply grows_nodeMap_set]. Qed.

Lemma wf_newNode n st :
  TreeNode.children n = Some [] → wf st → wf (newNode n st).
Proof.
  intros Hcs [Hi Hx Hc]. split; simpl.
  - intros i n0 Hl. rewrite lookup_insert. case_decide as Hk; [eauto|].
    apply lookup_snoc_Some in Hl as [[_ Hn0]|[_ <-]]; [eauto|done].
  - intros k r. rewrite lookup_insert. case_decide as Hk.
    + intros [= <-]. exists n. by rewrite list_lookup_middle.
    + intros Hr. destruct (Hx _ _ Hr) as (n0 & Hn0 & Ho).
      exists n0. split; [by apply lookup_app_l_Some|done].
  - intros i n0 Hl. rewrite length_app. simpl.
    apply lookup_snoc_Some in Hl as [[_ Hn0]|[_ <-]].
    + destruct (Hc _ _ Hn0) as (cs & Hcs0 & Hall & Hty). exists cs.
      split_and!; [done| |done]. eapply Forall_impl; [exact Hall|].
      intros c Hlt. simpl in Hlt. lia.
    + exists []. split_and!; [done|constructor|done].
Qed.

Lemma lookup_alter_Some {A} (f : A → A) (l : list A) (i j : nat) (y : A) :
  alter f i l !! j = Some y →
  (i = j ∧ ∃ x, l !! j = Some x ∧ y = f x) ∨ (i ≠ j ∧ l !! j = Some y).
Proof.
  rewrite list_lookup_alter. case_decide as Hij; [subst j|by right].
  destruct (l !! i) as [x|]; intros [= <-]. left. eauto.
Qed.

Lemma wf_update r f st :
  (∀ n, TreeNode.offset (f n) = TreeNode.offset n
        ∧ TreeNode.type (f n) = TreeNode.type n
        ∧ TreeNode.children (f n) = TreeNode.children n) →
  wf st → wf (update r f st).
Proof.
  intros Hf [Hi Hx Hc]. split; simpl.
  - intros i n [[_ (n0 & Hn0 & ->)]|[_ Hn]]%lookup_alter_Some; [|eauto].
    destruct (Hf n0) as (-> & _). eauto.
  - intros k r' Hr'. destruct (Hx _ _ Hr') as (n0 & Hn0 & Ho).
    destruct (decide (r = r')) as [->|Hne].
    + exists (f n0). rewrite list_lookup_alter_eq, Hn0. split; [done|].
      by destruct (Hf n0) as (-> & _).
    + exists n0. by rewrite list_lookup_alter_ne.
  - intros i n. rewrite length_alter.
    intros [[_ (n0 & Hn0 & ->)]|[_ Hn]]%lookup_alter_Some; [|eauto].
    destruct (Hf n0) as (_ & -> & ->). eauto.
Qed.

Lemma wf_setKeySpan child ko kl st : wf st → wf (setKeySpan child ko kl st).
Proof. intros H. unfold setKeySpan. by do 2 (apply wf_update; [done|]). Qed.

Lemma is_container_grows st st' r : grows st st' → is_container st r → is_container st' r.
Proof.
  intros [Hn _] (n & Hr & Hty). destruct (Hn _ _ Hr) as (n' & Hr' & (_&_&Ht&_) & _).
  exists n'. split; [done|]. by rewrite Ht.
Qed.

Lemma wf_pushChild current child st :
  (child < List.length (heap st))%nat → is_container st current →
  wf st → wf (pushChild current child st).
Proof.
  intros Hlt (nc & Hnc & Hty) [Hi Hx Hc]. split; simpl.
  - intros i n [[_ (n0 & Hn0 & ->)]|[_ Hn]]%lookup_alter_Some; simpl; eauto.
  - intros k r' Hr'. destruct (Hx _ _ Hr') as (n0 & Hn0 & Ho).
    destruct (decide (current = r')) as [->|Hne].
    + exists (push child n0). rewrite list_lookup_alter_eq, Hn0. by split.
    + exists n0. by rewrite list_lookup_alter_ne.
  - intros i n. rewrite length_alter.
    intros [[-> (n0 & Hn0 & ->)]|[_ Hn]]%lookup_alter_Some; [|eauto].
    assert (n0 = nc) as -> by congruence.
    destruct (Hc _ _ Hnc) as (cs & Hcs & Hall & _).
    exists (cs ++ [child]). unfold push. simpl. rewrite Hcs. simpl.
    split_and!; [done| |done]. apply Forall_app. split; [done|]. by constructor.
Qed.

(** ** The builders keep the store well formed *)

Lemma buildJsonTree_unfold node parent key st :
  buildJsonTree node parent key st =
    if collapses node then
      match json.children node with
      | Some (keyNode :: valueNode :: _) =>
          stampKey keyNode (buildJsonTree valueNode parent (json.value keyNode) st)
      | _ => (None, st)
      end
    else
      (Some (List.length (heap st)),
       buildJsonChildren node (List.length (heap st))
         (newNode (jsonTreeNode node parent key) st)).
Proof. destruct node as [[] v o l [[|k [|v' r]]|]]; reflexivity. Qed.

Lemma buildYamlTree_unfold node parent key st :
  buildYamlTree node parent key st =
    match getYamlRange (Some (yaml.range node)) with
    | Some span =>
        (Some (List.length (heap st)),
         buildYamlChildren node (List.length (heap st)) (start span)
           (newNode (yamlTreeNode node span parent key) st))
    | None => (None, st)
    end.
Proof.
  destruct node as [range value toJSON [items|items|]]; simpl;
    destruct (getYamlRange (Some range)); reflexivity.
Qed.

(** A step that leaves the store as it is. *)
Ltac unchanged := split; [done|apply grows_refl].

Lemma built_ok_None s : wf s → built_ok s (None, s).
Proof. intros H. split_and!; [done|apply grows_refl|done]. Qed.

Lemma pushBuilt_ok current s built :
  is_container s current → built_ok s built →
  wf (pushBuilt current built) ∧ grows s (pushBuilt current built).
Proof.
  intros Hc (Hwf & Hg & Hr). destruct built as [[c|] s']; simpl in *; [|done].
  split.
  - apply wf_pushChild; [by apply Hr|by eapply is_container_grows|done].
  - eapply grows_trans; [exact Hg|apply grows_pushChild].
Qed.

Lemma stampKey_ok keyNode s built : built_ok s built → built_ok s (stampKey keyNode built).
Proof.
  intros (Hwf & Hg & Hr). destruct built as [[c|] s']; simpl in *; [|done].
  split_and!.
  - by apply wf_setKeySpan.
  - eapply grows_trans; [exact Hg|apply grows_setKeySpan].
  - intros c' [= <-]. unfold setKeySpan, update. simpl. rewrite !length_alter. by apply Hr.
Qed.

Lemma attachValue_ok current pair s built :
  is_container s current → built_ok s built →
  wf (attachValue current pair built) ∧ grows s (attachValue current pair built).
Proof.
  intros Hc (Hwf & Hg & Hr). destruct built as [[c|] s']; simpl in *; [|done].
  specialize (Hr c eq_refl).
  destruct (getYamlRange (keyOrPair pair)) as [keyRange|]; split.
  - apply wf_pushChild.
    + unfold setKeySpan, update. simpl. by rewrite !length_alter.
    + eapply is_container_grows; [|exact Hc].
      eapply grows_trans; [exact Hg|apply grows_setKeySpan].
    + by apply wf_setKeySpan.
  - eapply grows_trans; [exact Hg|].
    eapply grows_trans; [apply grows_setKeySpan|apply grows_pushChild].
  - apply wf_pushChild; [done|by eapply is_container_grows|done].
  - eapply grows_trans; [exact Hg|apply grows_pushChild].
Qed.

Lemma synthesizeNull_ok current currentOffset pair s :
  is_container s current → wf s →
  wf (synthesizeNull current currentOffset pair s)
  ∧ grows s (synthesizeNull current currentOffset pair s).
Proof.
  intros Hc Hwf. unfold synthesizeNull. simpl.
  change (nodeMap_set _ _ _) with (newNode (nullNodeFor current currentOffset pair) s).
  split.
  - apply wf_pushChild.
    + simpl. rewrite length_app. simpl. lia.
    + eapply is_container_grows; [apply grows_newNode|done].
    + by apply wf_newNode.
  - eapply grows_trans; [apply grows_newNode|apply grows_pushChild].
Qed.

Lemma newNode_length n st : List.length (heap (newNode n st)) = S (List.length (heap st)).
Proof. simpl. rewrite length_app. simpl. lia. Qed.

Lemma newNode_lookup n st : heap (newNode n st) !! List.length (heap st) = Some n.
Proof. simpl. by apply list_lookup_middle. Qed.

(** The result of the generic case: the new object, after its loops. *)
Lemma built_ok_current n s s' :
  wf s' → grows (newNode n s) s' → built_ok s (Some (List.length (heap s)), s').
Proof.
  intros Hwf Hg. split_and!; simpl; [done| |].
  - eapply grows_trans; [apply grows_newNode|done].
  - intros c [= <-]. apply grows_length in Hg. rewrite newNode_length in Hg. lia.
Qed.

Lemma pushLoop_ok {A} (build : A → option ref → JsValue → Store → option ref * Store)
    (keyOf : Z → JsValue) (current : ref) (items : list A) (s0 : Store) (index : Z) :
  Forall (builds_ok build) items →
  is_container s0 current → wf s0 →
  let s' := forEachFrom (λ item index s,
              pushBuilt current (build item (Some current) (keyOf index) s))
              index items s0 in
  wf s' ∧ grows s0 s'.
Proof.
  intros Hitems Hc Hwf0. simpl.
  apply (forEachFrom_invariant _ (λ s', wf s' ∧ grows s0 s'));
    [|unchanged].
  eapply Forall_impl; [exact Hitems|]. intros item Hitem i s' [Hwf' Hg'].
  simpl. destruct (pushBuilt_ok current s' (build item (Some current) (keyOf i) s'))
    as [? ?].
  - by eapply is_container_grows.
  - by apply Hitem.
  - split; [done|]. by eapply grows_trans.
Qed.

Lemma buildJsonChildren_step node current s0 :
  Forall (builds_ok buildJsonTree) (json_subnodes node) →
  (container (normalizeNodeType (json.type node)) → is_container s0 current) →
  wf s0 →
  wf (buildJsonChildren node current s0) ∧ grows s0 (buildJsonChildren node current s0).
Proof.
  intros Hsub Hc Hwf0. unfold buildJsonChildren, json_subnodes in *.
  destruct (json.children node) as [children|]; simpl in Hsub;
    [|unchanged].
  destruct (json.type node) eqn:Hty; try unchanged.
  - apply (pushLoop_ok buildJsonTree (λ _, VUndefined)); [done| |done].
    apply Hc. by left.
  - apply (pushLoop_ok buildJsonTree VNum); [done| |done].
    apply Hc. by right.
Qed.

Lemma is_container_newNode n st :
  container (TreeNode.type n) → is_container (newNode n st) (List.length (heap st)).
Proof. intros Hty. exists n. split; [apply newNode_lookup|done]. Qed.

Lemma buildJsonTree_ok node : builds_ok buildJsonTree node.
Proof.
  induction node as [node IH] using json_Node_ind. intros parent key s Hwf.
  rewrite buildJsonTree_unfold. destruct (collapses node) eqn:Hcol.
  - unfold json_subnodes in IH.
    destruct (json.children node) as [[|keyNode [|valueNode rest]]|];
      simpl in IH; try by apply built_ok_None.
    apply stampKey_ok. inversion IH as [|? ? _ IH']. inversion IH' as [|? ? Hv _].
    by apply Hv.
  - destruct (buildJsonChildren_step node (List.length (heap s))
                (newNode (jsonTreeNode node parent key) s)) as [? ?].
    + done.
    + intros Hty. by apply is_container_newNode.
    + by apply wf_newNode.
    + by apply (built_ok_current (jsonTreeNode node parent key)).
Qed.

Lemma buildJsonChildren_ok node current s0 :
  (container (normalizeNodeType (json.type node)) → is_container s0 current) →
  wf s0 →
  wf (buildJsonChildren node current s0) ∧ grows s0 (buildJsonChildren node current s0).
Proof.
  apply buildJsonChildren_step, Forall_forall. intros child _. apply buildJsonTree_ok.
Qed.

Lemma getYamlNodeType_Map node items :
  yaml.kind node = yaml.Map items → getYamlNodeType node = TObject.
Proof. intros H. unfold getYamlNodeType, yaml.isMap. by rewrite H. Qed.

Lemma getYamlNodeType_Seq node items :
  yaml.kind node = yaml.Seq items → getYamlNodeType node = TArray.
Proof. intros H. unfold getYamlNodeType, yaml.isMap, yaml.isSeq. by rewrite H. Qed.

Lemma buildYamlPairs_step current currentOffset items s0 index :
  Forall (builds_ok buildYamlTree) (omap yaml.pair_value items) →
  is_container s0 current → wf s0 →
  let s' := forEachFrom (λ pair _, buildYamlPair current currentOffset pair)
              index items s0 in
  wf s' ∧ grows s0 s'.
Proof.
  intros Hvalues Hc Hwf0. simpl.
  apply (forEachFrom_invariant _ (λ s', wf s' ∧ grows s0 s'));
    [|unchanged].
  apply Forall_forall. intros pair Hin i s' [Hwf' Hg'].
  assert (is_container s' current) as Hc' by by eapply is_container_grows.
  unfold buildYamlPair. destruct (yaml.pair_value pair) as [value|] eqn:Hv.
  - destruct (attachValue_ok current pair s'
      (buildYamlTree value (Some current) (getYamlPairKey pair) s'))
      as [? ?]; [done| |split; [done|by eapply grows_trans]].
    rewrite Forall_forall in Hvalues. apply Hvalues; [|done].
    apply list_elem_of_omap. eauto.
  - destruct (synthesizeNull_ok current currentOffset pair s')
      as [? ?]; [done..|]. split; [done|by eapply grows_trans].
Qed.

Lemma buildYamlChildren_step node current currentOffset s0 :
  Forall (builds_ok buildYamlTree) (yaml_subnodes node) →
  (container (getYamlNodeType node) → is_container s0 current) →
  wf s0 →
  wf (buildYamlChildren node current currentOffset s0)
  ∧ grows s0 (buildYamlChildren node current currentOffset s0).
Proof.
  intros Hsub Hc Hwf0. unfold buildYamlChildren, yaml_subnodes in *.
  destruct (yaml.kind node) as [items|items|] eqn:Hkind;
    [| |unchanged].
  - apply buildYamlPairs_step; [done| |done].
    apply Hc. left. by eapply getYamlNodeType_Map.
  - apply (pushLoop_ok buildYamlTree VNum); [done| |done].
    apply Hc. right. by eapply getYamlNodeType_Seq.
Qed.

Lemma buildYamlTree_ok node : builds_ok buildYamlTree node.
Proof.
  induction node as [node IH] using yaml_Node_ind. intros parent key s Hwf.
  rewrite buildYamlTree_unfold.
  destruct (getYamlRange (Some (yaml.range node))) as [span|];
    [|by apply built_ok_None].
  destruct (buildYamlChildren_step node (List.length (heap s)) (start span)
              (newNode (yamlTreeNode node span parent key) s)) as [? ?].
  - done.
  - intros Hty. by apply is_container_newNode.
  - by apply wf_newNode.
  - by apply (built_ok_current (yamlTreeNode node span parent key)).
Qed.

Lemma buildYamlPairs_ok current currentOffset items s0 :
  is_container s0 current → wf s0 →
  wf (buildYamlPairs current currentOffset items s0)
  ∧ grows s0 (buildYamlPairs current currentOffset items s0).
Proof.
  apply buildYamlPairs_step, Forall_forall. intros value _. apply buildYamlTree_ok.
Qed.

(** ** After a parse *)

Lemma parseTree_ok
    (json_parseTree : string → option json.Node)
    (yaml_parseDocument : string → yamlDocument.Parsed) activeTextEditor :
  built_ok emptyStore
    (tree (parseTree json_parseTree yaml_parseDocument activeTextEditor),
     store (parseTree json_parseTree yaml_parseDocument activeTextEditor)).
Proof.
  unfold parseTree. destruct activeTextEditor as [document|]; simpl;
    [|apply built_ok_None, wf_empty].
  destruct (isYamlLanguage _).
  - unfold parseYamlTree. destruct (yaml_parseDocument _) as [|[contents|]].
    + apply built_ok_None, wf_empty.
    + destruct (buildYamlTree contents None VUndefined emptyStore) eqn:Hb. simpl.
      rewrite <- Hb. apply buildYamlTree_ok, wf_empty.
    + apply built_ok_None, wf_empty.
  - destruct (json_parseTree _) as [parsedJson|]; [|apply built_ok_None, wf_empty].
    destruct (buildJsonTree parsedJson None VUndefined emptyStore) eqn:Hb. simpl.
    rewrite <- Hb. apply buildJsonTree_ok, wf_empty.
Qed.

(** The scenario of an object with a number and an array: the root has the
    two values as children; the array has a boolean and a null. *)
Example nested_object_tree :
  let p := sample_parse sample_nested_text "json" in
  tree p = Some 0%nat
  ∧ heap (store p)
    = [TreeNode.mk 0 27 TObject VUndefined None (Some [1; 2]%nat) VUndefined None None;
       TreeNode.mk 6 1 TNumber (VNum 1) (Some 0%nat) (Some []) (VStr "a") (Some 1) (Some 3);
       TreeNode.mk 14 12 TArray VUndefined (Some 0%nat) (Some [3; 4]%nat) (VStr "b")
         (Some 9) (Some 3);
       TreeNode.mk 15 4 TBoolean (VBool true) (Some 2%nat) (Some []) (VNum 0) None None;
       TreeNode.mk 21 4 TNull VNull (Some 2%nat) (Some []) (VNum 1) None None]
  ∧ getChildren p None = Returns [6; 14]
  ∧ getChildren p (Some 14) = Returns [15; 21]
  ∧ mapResult vscode.label <$> [getTreeItem p 0; getTreeItem p 6; getTreeItem p 14;
                                getTreeItem p 15; getTreeItem p 21]
    = Returns <$> ["{ 2 } "; "a: 1"; "[ 2 ] b"; "0:true"; "1:null"]%string.
Proof. by vm_compute. Qed.

(** ** Language ids *)

Lemma getChildren_no_tree p offset : tree p = None → getChildren p offset = Returns [].
Proof. intros H. unfold getChildren. rewrite H. by destruct (truthy offset). Qed.

(** C1, as the code has it: a document that is not declared as YAML is
    parsed as JSON whatever its declared language is, so two such documents
    with the same text get the same tree and index ("plaintext" like
    "json"); and whenever a parse leaves no tree, every child enumeration
    returns the empty list. *)
Theorem parseTree_reads_any_language_as_json
    (json_parseTree : string → option json.Node)
    (yaml_parseDocument : string → yamlDocument.Parsed) :
  (∀ document document',
      vscode.getText document = vscode.getText document' →
      vscode.languageId document ≠ "yaml"%string →
      vscode.languageId document' ≠ "yaml"%string →
      tree (parseTree json_parseTree yaml_parseDocument (Some document))
      = tree (parseTree json_parseTree yaml_parseDocument (Some document'))
      ∧ store (parseTree json_parseTree yaml_parseDocument (Some document))
        = store (parseTree json_parseTree yaml_parseDocument (Some document')))
  ∧ (∀ activeTextEditor offset,
      tree (parseTree json_parseTree yaml_parseDocument activeTextEditor) = None →
      getChildren (parseTree json_parseTree yaml_parseDocument activeTextEditor) offset
      = Returns []).
Proof.
  split.
  - intros document document' Htext Hl Hl'. unfold parseTree, isYamlLanguage.
    rewrite !bool_decide_eq_false_2 by congruence. rewrite Htext.
    by destruct (json_parseTree _) as [parsedJson|]; [destruct (buildJsonTree _ _ _ _)|].
  - intros activeTextEditor offset. apply getChildren_no_tree.
Qed.

Lemma parseTree_reads_any_language_as_json_witness :
  tree (sample_parse "[1]" "plaintext") = tree (sample_parse "[1]" "json")
  ∧ store (sample_parse "[1]" "plaintext") = store (sample_parse "[1]" "json").
Proof.
  apply (parseTree_reads_any_language_as_json sample_json_parseTree
           sample_yaml_parseDocument); [reflexivity|discriminate|discriminate].
Defined.

(** C1 as stated fails: a document declared "plaintext" whose text is [[1]]
    gets a tree, and the root's children are enumerated. *)
Lemma plaintext_document_gets_a_tree :
  languageId (sample_parse "[1]" "plaintext") = Some "plaintext"%string
  ∧ tree (sample_parse "[1]" "plaintext") = Some 0%nat
  ∧ getChildren (sample_parse "[1]" "plaintext") None = Returns [1].
Proof. by vm_compute. Qed.

(** ** The facade's errors *)

Lemma nodeMap_get_None st offset : nodeMap st !! offset = None → nodeMap_get st offset = None.
Proof. intros H. unfold nodeMap_get. by rewrite H. Qed.

(** C8, as the code has it: [getTreeItem] throws when no tree or no editor
    is loaded or the offset is not in the index; [getChildren] never throws,
    and returns the empty list when no tree is loaded and when the offset is
    not [0] and not in the index; the offset [0] is read as no offset, and
    gives the children of the root. *)
Theorem facade_error_policy (p : Provider) (offset : Z) :
  (tree p = None ∨ editor p = None ∨ nodeMap (store p) !! offset = None →
     ∃ message, getTreeItem p offset = Throws message)
  ∧ (∀ query, ∃ offsets, getChildren p query = Returns offsets)
  ∧ (tree p = None → ∀ query, getChildren p query = Returns [])
  ∧ (nodeMap (store p) !! offset = None → offset ≠ 0 →
     getChildren p (Some offset) = Returns [])
  ∧ getChildren p (Some 0) = getChildren p None
  ∧ (∀ root rootNode,
       tree p = Some root → deref (store p) root = Some rootNode →
       getChildren p (Some 0) = Returns (getChildrenOffsets (store p) rootNode)).
Proof.
  split_and!.
  - unfold getTreeItem. intros [H|[H|H]].
    + rewrite H. eauto.
    + rewrite H. destruct (tree p); eauto.
    + rewrite (nodeMap_get_None _ _ H). destruct (tree p), (editor p); eauto.
  - intros query. unfold getChildren.
    destruct (truthy query), (tree p); simpl;
      repeat (match goal with |- context [match ?x with _ => _ end] => destruct x end);
      eauto.
  - intros H query. by apply getChildren_no_tree.
  - intros H Hne. unfold getChildren, truthy.
    rewrite (proj2 (Z.eqb_neq offset 0) Hne), (nodeMap_get_None _ _ H).
    destruct (tree p) as [root|]; [done|]. simpl. done.
  - done.
  - intros root rootNode Hroot Hnode. unfold getChildren. simpl.
    by rewrite Hroot; simpl; rewrite Hnode.
Qed.

Lemma facade_error_policy_witness :
  (∃ message, getTreeItem (sample_parse "[1]" "json") 7 = Throws message)
  ∧ getChildren (sample_parse "[1]" "json") (Some 7) = Returns []
  ∧ getChildren (sample_parse "[1]" "json") (Some 0) = Returns [1].
Proof.
  destruct (facade_error_policy (sample_parse "[1]" "json") 7)
    as (Hitem & _ & _ & Hchildren & _ & Hzero).
  split_and!; [apply Hitem; right; right; reflexivity|apply Hchildren; [reflexivity|lia]|].
  exact (Hzero 0%nat
           (TreeNode.mk 0 3 TArray VUndefined None (Some [1%nat]) VUndefined None None)
           eq_refl eq_refl).
Defined.

(** C8 as stated fails for [getChildren]: with a tree loaded, an offset that
    is not in the index gives the empty list, not an error. *)
Lemma getChildren_unknown_offset_returns :
  tree (sample_parse "[1]" "json") = Some 0%nat
  ∧ nodeMap (store (sample_parse "[1]" "json")) !! 7 = None
  ∧ getChildren (sample_parse "[1]" "json") (Some 7) = Returns []
  ∧ getTreeItem (sample_parse "[1]" "json") 7 = Throws "Could not find node at 7".
Proof. by vm_compute. Qed.

(** The text [ [1]], with a space before the array: the root is at offset
    1 and nothing is at offset 0, yet [getChildren(0)] gives the children of
    the root. *)
Example offset_zero_enumerates_the_root :
  let p := parseTree
             (λ _, Some (json.mk json.array VUndefined 1 3
                           (Some [json.mk json.number (VNum 1) 2 1 None])))
             sample_yaml_parseDocument
             (Some {| vscode.getText := " [1]"; vscode.languageId := "json" |}) in
  nodeMap (store p) !! 0 = None
  ∧ getChildren p (Some 0) = Returns [2]
  ∧ getChildren p None = Returns [2].
Proof. by vm_compute. Qed.

(** ** Rename *)

(** C7: a rename whose target is a child of an array node, or has no
    recorded key span, makes no edit: nothing is thrown and the document text
    stays as it is. *)
Theorem rename_refused (p : Provider) (offset : Z) (value : option string)
    (r : ref) (targetNode : TreeNode.t) :
  nodeMap_get (store p) offset = Some (r, targetNode) →
  is_Some (arrayParent (store p) targetNode)
    ∨ TreeNode.keyOffset targetNode = None
    ∨ TreeNode.keyLength targetNode = None →
  rename p offset value = Returns None
  ∧ ∀ document, textAfterRename p document offset value = Returns (vscode.getText document).
Proof.
  intros Hget Hno.
  assert (rename p offset value = Returns None) as Hr.
  { unfold rename. rewrite Hget.
    destruct value, (editor p), (tree p); try done.
    destruct Hno as [[parent Hp]|[Hk|Hk]]; rewrite ?Hp, ?Hk; [done| |].
    - by destruct (arrayParent (store p) targetNode).
    - by destruct (arrayParent (store p) targetNode), (TreeNode.keyOffset targetNode). }
  split; [done|]. intros document. unfold textAfterRename. by rewrite Hr.
Qed.

Lemma rename_refused_witness :
  rename (sample_parse "[1]" "json") 1 (Some "x"%string) = Returns None
  ∧ ∀ document,
      textAfterRename (sample_parse "[1]" "json") document 1 (Some "x"%string)
      = Returns (vscode.getText document).
Proof.
  apply (rename_refused (sample_parse "[1]" "json") 1 (Some "x"%string) 1%nat
           (TreeNode.mk 1 1 TNumber (VNum 1) (Some 0%nat) (Some []) (VNum 0) None None)).
  - reflexivity.
  - left. vm_compute. eauto.
Defined.

(** The edit [rename] makes on a valid target. *)
Lemma rename_valid (p : Provider) (offset : Z) (value : string)
    (document : vscode.TextDocument) (root r : ref) (targetNode : TreeNode.t)
    (keyOffset keyLength : Z) :
  editor p = Some document → tree p = Some root →
  nodeMap_get (store p) offset = Some (r, targetNode) →
  arrayParent (store p) targetNode = None →
  TreeNode.keyOffset targetNode = Some keyOffset →
  TreeNode.keyLength targetNode = Some keyLength →
  rename p offset (Some value)
  = Returns (Some
      {| vscode.edit_range :=
           vscode.newRange (vscode.positionAt document keyOffset)
             (vscode.positionAt document (keyOffset + keyLength));
         vscode.newText :=
           if isYamlLanguage (languageId p)
           then formatYamlKey (text p) value targetNode
           else JSON_stringify value |}).
Proof. intros He Ht Hg Ha Hko Hkl. unfold rename. by rewrite He, Ht, Hg, Ha, Hko, Hkl. Qed.

Lemma formatYamlKey_quoted text value node keyOffset keyLength quote rest :
  TreeNode.keyOffset node = Some keyOffset →
  TreeNode.keyLength node = Some keyLength →
  trim (slice text keyOffset (keyOffset + keyLength)) = String quote rest →
  quote = dquote ∨ quote = squote →
  formatYamlKey text value node = String quote (value +:+ String quote EmptyString).
Proof.
  intros Hko Hkl Htrim Hq. unfold formatYamlKey. rewrite Hko, Hkl, Htrim. simpl.
  destruct Hq as [-> | ->]; reflexivity.
Qed.

Lemma formatYamlKey_unquoted text value node keyOffset keyLength :
  TreeNode.keyOffset node = Some keyOffset →
  TreeNode.keyLength node = Some keyLength →
  startsWith (trim (slice text keyOffset (keyOffset + keyLength))) dquote = false →
  startsWith (trim (slice text keyOffset (keyOffset + keyLength))) squote = false →
  formatYamlKey text value node = value.
Proof.
  intros Hko Hkl Hd Hs. unfold formatYamlKey. by rewrite Hko, Hkl, Hd, Hs.
Qed.

(** C5: on a valid target the replacement text is [JSON.stringify] of the new
    label in a JSON or JSONC document; in a YAML document it is the label
    between two copies of the quote the trimmed key text starts with, and
    the bare label when the key text starts with no quote. *)
Theorem rename_replacement_text (p : Provider) (offset : Z) (label : string)
    (document : vscode.TextDocument) (root r : ref) (targetNode : TreeNode.t)
    (keyOffset keyLength : Z) :
  editor p = Some document → tree p = Some root →
  nodeMap_get (store p) offset = Some (r, targetNode) →
  arrayParent (store p) targetNode = None →
  TreeNode.keyOffset targetNode = Some keyOffset →
  TreeNode.keyLength targetNode = Some keyLength →
  let existing := trim (slice (text p) keyOffset (keyOffset + keyLength)) in
  ∃ edit,
    rename p offset (Some label) = Returns (Some edit)
    ∧ (languageId p = Some "json"%string ∨ languageId p = Some "jsonc"%string →
       vscode.newText edit = JSON_stringify label)
    ∧ (languageId p = Some "yaml"%string →
       ∀ quote rest, existing = String quote rest → quote = dquote ∨ quote = squote →
         vscode.newText edit = String quote (label +:+ String quote EmptyString))
    ∧ (languageId p = Some "yaml"%string →
       startsWith existing dquote = false → startsWith existing squote = false →
       vscode.newText edit = label).
Proof.
  intros He Ht Hg Ha Hko Hkl existing. eexists. split; [by eapply rename_valid|].
  simpl. split_and!.
  - by intros [-> | ->].
  - intros -> quote rest Hq Hquote. simpl. by eapply formatYamlKey_quoted.
  - intros -> Hd Hs. simpl. by eapply formatYamlKey_unquoted.
Qed.

Lemma rename_replacement_text_witness :
  ∃ edit,
    rename (sample_parse sample_quoted_text "yaml") 7 (Some "new"%string)
    = Returns (Some edit)
    ∧ vscode.newText edit = String dquote ("new" +:+ String dquote EmptyString).
Proof.
  destruct (rename_replacement_text (sample_parse sample_quoted_text "yaml") 7 "new"
              {| vscode.getText := sample_quoted_text; vscode.languageId := "yaml" |}
              0%nat 1%nat
              (TreeNode.mk 7 1 TNumber (VNum 1) (Some 0%nat) (Some []) (VStr "old")
                 (Some 0) (Some 5))
              0 5 eq_refl eq_refl eq_refl eq_refl eq_refl eq_refl)
    as (edit & Hedit & _ & Hquoted & _).
  exists edit. split; [exact Hedit|].
  eapply (Hquoted eq_refl dquote); [vm_compute; reflexivity|by left].
Defined.

(** C10, as the code has it: the empty string is a label like any other; on
    a valid target the edit is made, and its text is the JSON-quoted empty
    string (a pair of double quotes) in a document that is not YAML, a pair
    of the key's quotes for a quoted YAML key, and the empty string for an
    unquoted YAML key.  A dismissed prompt makes no edit. *)
Theorem rename_empty_label (p : Provider) (offset : Z)
    (document : vscode.TextDocument) (root r : ref) (targetNode : TreeNode.t)
    (keyOffset keyLength : Z) :
  editor p = Some document → tree p = Some root →
  nodeMap_get (store p) offset = Some (r, targetNode) →
  arrayParent (store p) targetNode = None →
  TreeNode.keyOffset targetNode = Some keyOffset →
  TreeNode.keyLength targetNode = Some keyLength →
  let existing := trim (slice (text p) keyOffset (keyOffset + keyLength)) in
  rename p offset None = Returns None
  ∧ ∃ edit,
      rename p offset (Some EmptyString) = Returns (Some edit)
      ∧ vscode.edit_range edit
        = vscode.newRange (vscode.positionAt document keyOffset)
            (vscode.positionAt document (keyOffset + keyLength))
      ∧ (languageId p ≠ Some "yaml"%string →
         vscode.newText edit = String dquote (String dquote EmptyString))
      ∧ (languageId p = Some "yaml"%string →
         ∀ quote rest, existing = String quote rest → quote = dquote ∨ quote = squote →
           vscode.newText edit = String quote (String quote EmptyString))
      ∧ (languageId p = Some "yaml"%string →
         startsWith existing dquote = false → startsWith existing squote = false →
         vscode.newText edit = EmptyString).
Proof.
  intros He Ht Hg Ha Hko Hkl existing. split; [reflexivity|].
  eexists. split; [by eapply rename_valid|]. simpl. split_and!.
  - done.
  - intros Hl. unfold isYamlLanguage. by rewrite bool_decide_eq_false_2.
  - intros -> quote rest Hq Hquote. simpl.
    by rewrite (formatYamlKey_quoted _ _ _ _ _ _ _ Hko Hkl Hq Hquote).
  - intros -> Hd Hs. simpl. by eapply formatYamlKey_unquoted.
Qed.

Lemma rename_empty_label_witness :
  rename (sample_parse sample_quoted_text "yaml") 7 None = Returns None
  ∧ ∃ edit,
      rename (sample_parse sample_quoted_text "yaml") 7 (Some EmptyString)
      = Returns (Some edit)
      ∧ vscode.newText edit = String dquote (String dquote EmptyString).
Proof.
  destruct (rename_empty_label (sample_parse sample_quoted_text "yaml") 7
              {| vscode.getText := sample_quoted_text; vscode.languageId := "yaml" |}
              0%nat 1%nat
              (TreeNode.mk 7 1 TNumber (VNum 1) (Some 0%nat) (Some []) (VStr "old")
                 (Some 0) (Some 5))
              0 5 eq_refl eq_refl eq_refl eq_refl eq_refl eq_refl)
    as (Hnone & edit & Hedit & _ & _ & Hquoted & _).
  split; [exact Hnone|]. exists edit. split; [exact Hedit|].
  eapply (Hquoted eq_refl dquote); [vm_compute; reflexivity|by left].
Defined.

(** C10 as stated fails in a JSON document: the key span is replaced by a
    pair of double quotes, which is not the empty string, and the key is not
    a YAML key. *)
Lemma rename_empty_label_in_json :
  languageId (sample_parse sample_object_text "json") = Some "json"%string
  ∧ rename (sample_parse sample_object_text "json") 5 (Some EmptyString)
    = Returns (Some
        {| vscode.edit_range := {| vscode.range_start := 1; vscode.range_end := 4 |};
           vscode.newText := String dquote (String dquote EmptyString) |})
  ∧ String dquote (String dquote EmptyString) ≠ EmptyString.
Proof. by vm_compute. Qed.

(** ** Labels *)





(** ** The built tree and the index *)

Lemma reachable_valid st root r :
  wf st → (root < List.length (heap st))%nat → reachable st root r →
  (r < List.length (heap st))%nat.
Proof.
  intros Hwf Hroot. induction 1 as [|r n children child _ _ Hn Hcs Hin]; [done|].
  destruct (wf_children _ Hwf _ _ Hn) as (cs & Hcs' & Hall & _).
  rewrite Hcs in Hcs'. injection Hcs' as <-.
  by eapply Forall_forall in Hall.
Qed.

(** C9, as the code has it: every node made by a parse has its [children]
    list; the list of a scalar node (string, number, boolean, null) is
    empty. *)
Theorem children_always_present
    (json_parseTree : string → option json.Node)
    (yaml_parseDocument : string → yamlDocument.Parsed)
    (activeTextEditor : option vscode.TextDocument) (r : ref) (node : TreeNode.t) :
  deref (store (parseTree json_parseTree yaml_parseDocument activeTextEditor)) r
  = Some node →
  ∃ children,
    TreeNode.children node = Some children
    ∧ (TreeNode.type node ≠ TObject → TreeNode.type node ≠ TArray → children = []).
Proof.
  intros Hnode.
  destruct (parseTree_ok json_parseTree yaml_parseDocument activeTextEditor)
    as (Hwf & _ & _). simpl in Hwf.
  destruct (wf_children _ Hwf _ _ Hnode) as (children & Hcs & _ & Hty).
  exists children. split; [done|]. intros Ho Ha.
  destruct children as [|c children]; [done|]. by destruct Hty.
Qed.

Lemma children_always_present_witness :
  ∃ children,
    TreeNode.children
      (TreeNode.mk 1 1 TNumber (VNum 1) (Some 0%nat) (Some []) (VNum 0) None None)
    = Some children
    ∧ (TNumber ≠ TObject → TNumber ≠ TArray → children = []).
Proof.
  exact (children_always_present sample_json_parseTree sample_yaml_parseDocument
           (Some {| vscode.getText := "[1]"; vscode.languageId := "json" |}) 1%nat
           (TreeNode.mk 1 1 TNumber (VNum 1) (Some 0%nat) (Some []) (VNum 0) None None)
           eq_refl).
Defined.

(** C9 as stated fails: the number node of [[1]] is a scalar and has a
    [children] list, an empty one. *)
Lemma scalar_node_has_children_field :
  ∃ node,
    deref (store (sample_parse "[1]" "json")) 1%nat = Some node
    ∧ TreeNode.type node = TNumber
    ∧ TreeNode.children node = Some []
    ∧ TreeNode.children node ≠ None.
Proof. eexists. by vm_compute. Qed.

(** C4, as the code has it: after a parse, every node reachable from the
    root has an entry at its offset in the index, and that entry is a node
    with this offset; when the offsets of the nodes the parse made are
    pairwise distinct, the entry is the node itself.  The builders do not
    make offsets distinct. *)
Theorem index_covers_the_tree
    (json_parseTree : string → option json.Node)
    (yaml_parseDocument : string → yamlDocument.Parsed)
    (activeTextEditor : option vscode.TextDocument) (root r : ref) :
  let p := parseTree json_parseTree yaml_parseDocument activeTextEditor in
  tree p = Some root →
  reachable (store p) root r →
  ∃ node,
    deref (store p) r = Some node
    ∧ (∃ r' node',
         nodeMap (store p) !! TreeNode.offset node = Some r'
         ∧ deref (store p) r' = Some node'
         ∧ TreeNode.offset node' = TreeNode.offset node)
    ∧ (NoDup (TreeNode.offset <$> heap (store p)) →
       nodeMap (store p) !! TreeNode.offset node = Some r).
Proof.
  intros p Hroot Hreach.
  destruct (parseTree_ok json_parseTree yaml_parseDocument activeTextEditor)
    as (Hwf & _ & Hvalid). fold p in Hwf, Hvalid. simpl in Hwf, Hvalid.
  assert (r < List.length (heap (store p)))%nat as Hr
    by (eapply reachable_valid; eauto).
  destruct (lookup_lt_is_Some_2 _ _ Hr) as [node Hnode].
  destruct (wf_indexed _ Hwf _ _ Hnode) as [r' Hr'].
  destruct (wf_index _ Hwf _ _ Hr') as (node' & Hnode' & Ho).
  exists node. split_and!; [done|by eauto|].
  intros Hnd. rewrite Hr'. f_equal.
  eapply (NoDup_lookup _ _ _ _ Hnd); rewrite list_lookup_fmap.
  - by rewrite Hnode'.
  - rewrite Hnode. simpl. by rewrite Ho.
Qed.

Lemma index_covers_the_tree_witness :
  ∃ node,
    deref (store (sample_parse "[1]" "json")) 1%nat = Some node
    ∧ nodeMap (store (sample_parse "[1]" "json")) !! TreeNode.offset node = Some 1%nat.
Proof.
  destruct (index_covers_the_tree sample_json_parseTree sample_yaml_parseDocument
              (Some {| vscode.getText := "[1]"; vscode.languageId := "json" |})
              0%nat 1%nat eq_refl) as (node & Hnode & _ & Hentry).
  - eapply (reachable_child _ _ 0%nat); [apply reachable_root|reflexivity..|].
    apply list_elem_of_here.
  - exists node. split; [exact Hnode|]. apply Hentry.
    vm_compute. repeat constructor; rewrite ?list_elem_of_In; simpl; intuition discriminate.
Defined.

(** C4 as stated fails: in a mapping whose entry has no value and a key
    without a range, the [null] node is put at the mapping's own offset; the
    two share offset [0], and the mapping's index entry is overwritten. *)
Lemma null_node_takes_its_parent_offset :
  tree sample_spanless_parse = Some 0%nat
  ∧ reachable (store sample_spanless_parse) 0 1
  ∧ TreeNode.offset <$> heap (store sample_spanless_parse) = [0; 0]
  ∧ nodeMap (store sample_spanless_parse) !! 0 = Some 1%nat
  ∧ 0%nat ≠ 1%nat.
Proof.
  split_and!; try by vm_compute.
  eapply (reachable_child _ _ 0%nat); [apply reachable_root|reflexivity..|].
  apply list_elem_of_here.
Qed.

(** Offsets also meet on the main path: a mapping that starts with an empty
    key without a value has the [null] node at the end of the key, which is
    the mapping's own start. *)
Example empty_key_shares_its_mapping_offset :
  TreeNode.offset <$> heap (buildYamlTree sample_empty_key None VUndefined emptyStore).2
  = [0; 2; 2]
  ∧ TreeNode.type <$> heap (buildYamlTree sample_empty_key None VUndefined emptyStore).2
    = [TArray; TObject; TNull]
  ∧ nodeMap (buildYamlTree sample_empty_key None VUndefined emptyStore).2 !! 2
    = Some 2%nat.
Proof. by vm_compute. Qed.

(** ** Property nodes *)

(** A node the JSON builder does not collapse becomes the next object of
    the store, with the node's span and type and the given parent and key. *)
Lemma buildJsonTree_generic node parent key st :
  wf st → collapses node = false →
  ∃ st' n,
    buildJsonTree node parent key st = (Some (List.length (heap st)), st')
    ∧ deref st' (List.length (heap st)) = Some n
    ∧ same_identity (jsonTreeNode node parent key) n.
Proof.
  intros Hwf Hcol. rewrite buildJsonTree_unfold, Hcol.
  destruct (buildJsonChildren_ok node (List.length (heap st))
              (newNode (jsonTreeNode node parent key) st)) as [_ Hg].
  { intros Hty. by apply is_container_newNode. }
  { by apply wf_newNode. }
  destruct (grows_node _ _ Hg (List.length (heap st)) (jsonTreeNode node parent key))
    as (n & Hn & Hid & _); [apply newNode_lookup|].
  by exists (buildJsonChildren node (List.length (heap st))
            (newNode (jsonTreeNode node parent key) st)), n.
Qed.

Lemma setKeySpan_lookup child ko kl st n :
  deref st child = Some n →
  deref (setKeySpan child ko kl st) child = Some (with_keyLength kl (with_keyOffset ko n)).
Proof.
  intros Hn. unfold deref, setKeySpan, update in *. simpl.
  by rewrite !list_lookup_alter_eq, Hn.
Qed.

(** C3: a property node as jsonc-parser makes it, with its key as first
    child, gets no node of its own.  With no second child the node is
    dropped: nothing is returned and the store is untouched, so nothing is
    pushed to the parent.  With a value child, the call returns what
    building the value returns, makes no object and no index entry of its
    own, and leaves the returned node with the key child's span as
    [keyOffset] and [keyLength]; when the value is itself built as a node,
    that is the value's node, under the property's key. *)
Theorem property_node_collapses (node keyNode : json.Node) (rest : list json.Node)
    (parent : option ref) (key : JsValue) (st : Store) :
  json.type node = json.property →
  json.children node = Some (keyNode :: rest) →
  wf st →
  (rest = [] →
     buildJsonTree node parent key st = (None, st)
     ∧ ∀ current, pushBuilt current (buildJsonTree node parent key st) = st)
  ∧ (∀ valueNode rest', rest = valueNode :: rest' →
       let value := buildJsonTree valueNode parent (json.value keyNode) st in
       let built := buildJsonTree node parent key st in
       built.1 = value.1
       ∧ nodeMap built.2 = nodeMap value.2
       ∧ List.length (heap built.2) = List.length (heap value.2)
       ∧ (∀ child, built.1 = Some child →
            ∃ n, deref value.2 child = Some n
                 ∧ deref built.2 child
                   = Some (with_keyLength (Some (json.length keyNode))
                             (with_keyOffset (Some (json.offset keyNode)) n))
                 ∧ built.2 = setKeySpan child (Some (json.offset keyNode))
                               (Some (json.length keyNode)) value.2)
       ∧ (collapses valueNode = false →
            ∃ n, built.1 = Some (List.length (heap st))
                 ∧ deref built.2 (List.length (heap st)) = Some n
                 ∧ TreeNode.offset n = json.offset valueNode
                 ∧ TreeNode.length n = json.length valueNode
                 ∧ TreeNode.type n = normalizeNodeType (json.type valueNode)
                 ∧ TreeNode.key n = json.value keyNode
                 ∧ TreeNode.parent n = parent
                 ∧ TreeNode.keyOffset n = Some (json.offset keyNode)
                 ∧ TreeNode.keyLength n = Some (json.length keyNode))).
Proof.
  intros Hty Hcs Hwf.
  assert (collapses node = true) as Hcol by (unfold collapses; by rewrite Hty, Hcs).
  split.
  - intros ->. rewrite buildJsonTree_unfold, Hcol, Hcs. done.
  - intros valueNode rest' -> value built.
    assert (built = stampKey keyNode value) as Hbuilt
      by (unfold built; by rewrite buildJsonTree_unfold, Hcol, Hcs).
    destruct (buildJsonTree_ok valueNode parent (json.value keyNode) st Hwf)
      as (_ & _ & Hvalid). fold value in Hvalid.
    assert (∀ child, built.1 = Some child →
              ∃ n, deref value.2 child = Some n
                   ∧ deref built.2 child
                     = Some (with_keyLength (Some (json.length keyNode))
                               (with_keyOffset (Some (json.offset keyNode)) n))
                   ∧ built.2 = setKeySpan child (Some (json.offset keyNode))
                                 (Some (json.length keyNode)) value.2) as Hchild.
    { rewrite Hbuilt. destruct value as [[c|] s']; simpl; [|done].
      intros child [= <-]. destruct (lookup_lt_is_Some_2 (heap s') c) as [n Hn];
        [by apply Hvalid|].
      exists n. split_and!; [done|by apply setKeySpan_lookup|done]. }
    split_and!; try done.
    + rewrite Hbuilt. by destruct value as [[c|] s'].
    + rewrite Hbuilt. by destruct value as [[c|] s'].
    + rewrite Hbuilt. destruct value as [[c|] s']; simpl; [|done].
      by rewrite !length_alter.
    + intros Hgen.
      destruct (buildJsonTree_generic valueNode parent (json.value keyNode) st Hwf Hgen)
        as (s' & n & Hvalue & Hn & (Ho & Hl & Ht & _ & Hp & Hk)).
      fold value in Hvalue.
      assert (built.1 = Some (List.length (heap st))) as Hres
        by (rewrite Hbuilt, Hvalue; done).
      destruct (Hchild _ Hres) as (n0 & Hn0 & Hn' & _).
      rewrite Hvalue in Hn0. simpl in Hn0. assert (n0 = n) as -> by congruence.
      eexists. split_and!; [done|exact Hn'|done..].
Qed.

Lemma property_node_collapses_witness :
  ∃ n,
    (buildJsonTree
       (json.mk json.property VUndefined 1 5
          (Some [json.mk json.string (VStr "a") 1 3 None;
                 json.mk json.number (VNum 1) 5 1 None]))
       None VUndefined emptyStore).1 = Some 0%nat
    ∧ deref
        (buildJsonTree
           (json.mk json.property VUndefined 1 5
              (Some [json.mk json.string (VStr "a") 1 3 None;
                     json.mk json.number (VNum 1) 5 1 None]))
           None VUndefined emptyStore).2 0%nat = Some n
    ∧ TreeNode.offset n = 5
    ∧ TreeNode.key n = VStr "a"
    ∧ TreeNode.keyOffset n = Some 1
    ∧ TreeNode.keyLength n = Some 3.
Proof.
  destruct (property_node_collapses
              (json.mk json.property VUndefined 1 5
                 (Some [json.mk json.string (VStr "a") 1 3 None;
                        json.mk json.number (VNum 1) 5 1 None]))
              (json.mk json.string (VStr "a") 1 3 None)
              [json.mk json.number (VNum 1) 5 1 None]
              None VUndefined emptyStore eq_refl eq_refl wf_empty) as [_ Hvalue].
  destruct (Hvalue _ _ eq_refl) as (_ & _ & _ & _ & Hnode).
  destruct (Hnode eq_refl) as (n & Hres & Hn & Ho & _ & _ & Hk & _ & Hko & Hkl).
  exists n. split_and!; assumption.
Defined.

(** ** YAML entries without a value *)

Lemma forEachFrom_index_free {A} (f : A → Store → Store) (items : list A) i j s :
  forEachFrom (λ x _, f x) i items s = forEachFrom (λ x _, f x) j items s.
Proof. revert i j s. induction items as [|x items IH]; intros i j s; simpl; [done|apply IH]. Qed.

Lemma buildYamlPairs_cons current currentOffset pair items s :
  buildYamlPairs current currentOffset (pair :: items) s
  = buildYamlPairs current currentOffset items (buildYamlPair current currentOffset pair s).
Proof. unfold buildYamlPairs, forEach. simpl. apply forEachFrom_index_free. Qed.

Lemma buildYamlPairs_app current currentOffset before after s :
  buildYamlPairs current currentOffset (before ++ after) s
  = buildYamlPairs current currentOffset after
      (buildYamlPairs current currentOffset before s).
Proof.
  unfold buildYamlPairs, forEach. rewrite forEachFrom_app. apply forEachFrom_index_free.
Qed.

(** C2: for an entry without a value, the builder makes a [null] node of
    length 0 at the end of the span it resolves for the key (at the
    mapping's own offset when it resolves none), under the entry's key;
    enters it in the index at that offset; and pushes it to the mapping's
    children.  The build of the mapping is: the mapping's node, the entries
    before, this step, the entries after; the node is still there, with
    these fields, among the mapping's children and with an index entry at
    its offset, when the build ends. *)
Theorem absent_value_gets_null_node (node : yaml.Node) (parent : option ref)
    (key : JsValue) (st : Store) (span : Span)
    (before after : list yaml.Pair) (pair : yaml.Pair) :
  wf st →
  getYamlRange (Some (yaml.range node)) = Some span →
  yaml.kind node = yaml.Map (before ++ pair :: after) →
  yaml.pair_value pair = None →
  let current := List.length (heap st) in
  let keyRange := getYamlRange (keyOrPair pair) in
  let nullOffset := match keyRange with Some r => end_ r | None => start span end in
  let st_before :=
    buildYamlPairs current (start span) before
      (newNode (yamlTreeNode node span parent key) st) in
  let st_step := buildYamlPair current (start span) pair st_before in
  let st_end := buildYamlPairs current (start span) after st_step in
  let nullNode := List.length (heap st_before) in
  buildYamlTree node parent key st = (Some current, st_end)
  (* the step *)
  ∧ deref st_step nullNode
    = Some (TreeNode.mk nullOffset 0 TNull VUndefined (Some current) (Some [])
              (getYamlPairKey pair) (option_map start keyRange)
              (Some match keyRange with Some r => end_ r - start r | None => 0 end))
  ∧ nodeMap st_step = <[nullOffset := nullNode]> (nodeMap st_before)
  ∧ (∃ mapping children,
       deref st_before current = Some mapping
       ∧ TreeNode.children mapping = Some children
       ∧ deref st_step current = Some (with_children (Some (children ++ [nullNode])) mapping))
  (* the end of the build *)
  ∧ (∃ n mapping children,
       deref st_end nullNode = Some n
       ∧ TreeNode.type n = TNull ∧ TreeNode.length n = 0
       ∧ TreeNode.offset n = nullOffset
       ∧ TreeNode.key n = getYamlPairKey pair
       ∧ TreeNode.parent n = Some current
       ∧ deref st_end current = Some mapping
       ∧ TreeNode.children mapping = Some children
       ∧ nullNode ∈ children
       ∧ is_Some (nodeMap st_end !! nullOffset)).
Proof.
  intros Hwf Hspan Hkind Hvalue current keyRange nullOffset st_before st_step st_end
    nullNode.
  set (st0 := newNode (yamlTreeNode node span parent key) st) in *.
  assert (wf st0) as Hwf0 by by apply wf_newNode.
  assert (is_container st0 current) as Hc0.
  { apply is_container_newNode. left. by eapply getYamlNodeType_Map. }
  destruct (buildYamlPairs_ok current (start span) before st0 Hc0 Hwf0)
    as [Hwf_b Hg_b]. fold st_before in Hwf_b, Hg_b.
  assert (is_container st_before current) as Hc_b by by eapply is_container_grows.
  destruct Hc_b as (mapping & Hmapping & Hmty).
  assert (current < nullNode)%nat as Hlt by by eapply lookup_lt_Some.
  destruct (wf_children _ Hwf_b _ _ Hmapping) as (children & Hchildren & _ & _).
  assert (st_step = synthesizeNull current (start span) pair st_before) as Hstep
    by (unfold st_step, buildYamlPair; by rewrite Hvalue).
  assert (deref st_step nullNode = Some (nullNodeFor current (start span) pair)) as Hnull.
  { rewrite Hstep. unfold deref, synthesizeNull. simpl.
    rewrite list_lookup_alter_ne by lia. by apply list_lookup_middle. }
  assert (deref st_step current
          = Some (with_children (Some (children ++ [nullNode])) mapping)) as Hcur.
  { rewrite Hstep. unfold deref, synthesizeNull. simpl.
    rewrite list_lookup_alter_eq, lookup_app_l by done.
    unfold deref in Hmapping. rewrite Hmapping. simpl. unfold push.
    by rewrite Hchildren. }
  assert (nodeMap st_step = <[nullOffset := nullNode]> (nodeMap st_before)) as Hindex
    by by rewrite Hstep.
  destruct (synthesizeNull_ok current (start span) pair st_before) as [Hwf_s Hg_s];
    [by exists mapping|done|]. rewrite <- Hstep in Hwf_s, Hg_s.
  destruct (buildYamlPairs_ok current (start span) after st_step) as [_ Hg_e].
  { exists (with_children (Some (children ++ [nullNode])) mapping). by split. }
  { done. }
  fold st_end in Hg_e.
  split_and!.
  - rewrite buildYamlTree_unfold, Hspan. unfold buildYamlChildren. rewrite Hkind.
    by rewrite buildYamlPairs_app, buildYamlPairs_cons.
  - done.
  - done.
  - by exists mapping, children.
  - destruct (grows_node _ _ Hg_e _ _ Hnull) as (n & Hn & (Ho & Hl & Ht & _ & Hp & Hk) & _).
    destruct (grows_node _ _ Hg_e _ _ Hcur) as (mapping' & Hmapping' & _ & Hmore).
    destruct (Hmore _ eq_refl) as (more & Hchildren').
    exists n, mapping', ((children ++ [nullNode]) ++ more).
    split_and!; try done.
    + rewrite !elem_of_app, list_elem_of_singleton. auto.
    + apply (grows_index _ _ Hg_e). rewrite Hindex, lookup_insert_eq. eauto.
Qed.

Lemma absent_value_gets_null_node_witness :
  deref (buildYamlTree sample_flow_map None VUndefined emptyStore).2 1%nat
  = Some (TreeNode.mk 2 0 TNull VUndefined (Some 0%nat) (Some []) (VStr "a")
            (Some 1) (Some 1)).
Proof.
  destruct (absent_value_gets_null_node sample_flow_map None VUndefined emptyStore
              {| start := 0; end_ := 3 |} []
              []
              (yaml.mkPair
                 (Some (yaml.mkKey (yaml.RangeArray [Some 1; Some 2; Some 2])
                          (VStr "a") (Some (VStr "a")) "a"))
                 None yaml.RangeAbsent)
              wf_empty eq_refl eq_refl eq_refl) as (Hbuild & Hstep & _).
  rewrite Hbuild. exact Hstep.
Defined.

(** * More of the provider *)

(** ** A builder call only adds objects *)

Lemma prefix_of_lookups {A} (l1 l2 : list A) :
  (List.length l1 ≤ List.length l2)%nat →
  (∀ i, (i < List.length l1)%nat → l2 !! i = l1 !! i) →
  l1 `prefix_of` l2.
Proof.
  intros Hlen Hl. exists (drop (List.length l1) l2).
  rewrite <- (take_drop (List.length l1) l2) at 1. f_equal.
  apply list_eq. intros i. destruct (decide (i < List.length l1)%nat) as [Hi|Hi].
  - rewrite lookup_take_lt by done. by apply Hl.
  - rewrite lookup_take_ge by lia. symmetry. apply lookup_ge_None. lia.
Qed.

Lemma prefix_alter_ge {A} (f : A → A) (l1 l2 : list A) (i : nat) :
  l1 `prefix_of` l2 → (List.length l1 ≤ i)%nat → l1 `prefix_of` alter f i l2.
Proof.
  intros [k ->] Hi. rewrite alter_app_r_alt by done. by apply prefix_app_r.
Qed.

Lemma untouched_refl current s : untouched current s s.
Proof. by split. Qed.

Lemma untouched_trans current s1 s2 s3 :
  untouched current s1 s2 → untouched current s2 s3 → untouched current s1 s3.
Proof.
  intros [Hl12 H12] [Hl23 H23]. split; [lia|].
  intros i Hi Hne. rewrite H23 by (done || lia). by apply H12.
Qed.

Lemma untouched_prefix current s1 s2 :
  heap s1 `prefix_of` heap s2 → untouched current s1 s2.
Proof.
  intros Hp. split; [by apply prefix_length|]. intros i Hi _.
  destruct (lookup_lt_is_Some_2 _ _ Hi) as [n Hn]. rewrite Hn.
  by eapply prefix_lookup_Some.
Qed.

Lemma untouched_update current r f s1 s2 :
  r = current ∨ (List.length (heap s1) ≤ r)%nat →
  untouched current s1 s2 → untouched current s1 (update r f s2).
Proof.
  intros Hr [Hl H]. split; simpl; [by rewrite length_alter|].
  intros i Hi Hne. rewrite list_lookup_alter_ne by (destruct Hr; [congruence|lia]).
  by apply H.
Qed.

Lemma untouched_setKeySpan current r ko kl s1 s2 :
  (List.length (heap s1) ≤ r)%nat →
  untouched current s1 s2 → untouched current s1 (setKeySpan r ko kl s2).
Proof. intros. unfold setKeySpan. do 2 (apply untouched_update; [by right|]). done. Qed.

Lemma untouched_pushChild current child s1 s2 :
  untouched current s1 s2 → untouched current s1 (pushChild current child s2).
Proof. intros. apply untouched_update; [by left|done]. Qed.

Lemma untouched_newNode current n s : untouched current s (newNode n s).
Proof. apply untouched_prefix. simpl. by apply prefix_app_r. Qed.

Lemma prefix_of_untouched current s s1 s2 :
  heap s `prefix_of` heap s1 → (List.length (heap s) ≤ current)%nat →
  untouched current s1 s2 → heap s `prefix_of` heap s2.
Proof.
  intros Hp Hc [Hl H]. apply prefix_length in Hp as Hlen.
  apply prefix_of_lookups; [lia|]. intros i Hi.
  rewrite H by lia. destruct (lookup_lt_is_Some_2 _ _ Hi) as [n Hn]. rewrite Hn.
  by eapply prefix_lookup_Some.
Qed.

Lemma setKeySpan_length r ko kl st :
  List.length (heap (setKeySpan r ko kl st)) = List.length (heap st).
Proof. unfold setKeySpan, update. simpl. by rewrite !length_alter. Qed.

Lemma only_adds_prefix s built :
  only_adds s built → heap s `prefix_of` heap built.2.
Proof.
  unfold only_adds. destruct built as [[c|] s']; simpl; [by intros (_ & ? & _)|].
  by intros ->.
Qed.

Lemma pushBuilt_untouched current s built :
  only_adds s built → untouched current s (pushBuilt current built).
Proof.
  intros Hb. apply only_adds_prefix in Hb as Hp.
  destruct built as [[c|] s']; simpl in *; [|by apply untouched_prefix].
  by apply untouched_pushChild, untouched_prefix.
Qed.

Lemma stampKey_adds keyNode s built : only_adds s built → only_adds s (stampKey keyNode built).
Proof.
  unfold only_adds. destruct built as [[c|] s']; simpl; [|done].
  intros (-> & Hp & Hlt). split_and!; [done| |by rewrite !length_alter].
  by do 2 (apply prefix_alter_ge; [|done]).
Qed.

Lemma attachValue_untouched current pair s built :
  only_adds s built → untouched current s (attachValue current pair built).
Proof.
  intros Hb. apply only_adds_prefix in Hb as Hp. unfold only_adds in Hb.
  destruct built as [[c|] s']; simpl in *; [|by apply untouched_prefix].
  destruct Hb as (-> & _ & _). apply untouched_pushChild.
  destruct (getYamlRange (keyOrPair pair)); [|by apply untouched_prefix].
  by apply untouched_setKeySpan, untouched_prefix.
Qed.

Lemma synthesizeNull_untouched current currentOffset pair s :
  untouched current s (synthesizeNull current currentOffset pair s).
Proof.
  unfold synthesizeNull. simpl.
  change (nodeMap_set _ _ _) with (newNode (nullNodeFor current currentOffset pair) s).
  apply untouched_pushChild, untouched_newNode.
Qed.

Lemma pushLoop_untouched {A} (build : A → option ref → JsValue → Store → option ref * Store)
    (keyOf : Z → JsValue) (current : ref) (items : list A) (s0 : Store) (index : Z) :
  Forall (adds_only build) items →
  untouched current s0
    (forEachFrom (λ item index s,
       pushBuilt current (build item (Some current) (keyOf index) s))
       index items s0).
Proof.
  intros Hitems.
  apply (forEachFrom_invariant _ (λ s', untouched current s0 s'));
    [|apply untouched_refl].
  eapply Forall_impl; [exact Hitems|]. intros item Hitem i s' Hs'. simpl.
  eapply untouched_trans; [exact Hs'|]. apply pushBuilt_untouched, Hitem.
Qed.

Lemma buildJsonChildren_untouched_step node current s0 :
  Forall (adds_only buildJsonTree) (json_subnodes node) →
  untouched current s0 (buildJsonChildren node current s0).
Proof.
  intros Hsub. unfold buildJsonChildren, json_subnodes in *.
  destruct (json.children node) as [children|]; simpl in Hsub; [|apply untouched_refl].
  destruct (json.type node); try apply untouched_refl.
  - by apply (pushLoop_untouched buildJsonTree (λ _, VUndefined)).
  - by apply (pushLoop_untouched buildJsonTree VNum).
Qed.

(** The generic case: the new object, and loops that leave the rest alone. *)
Lemma only_adds_current n s s' :
  untouched (List.length (heap s)) (newNode n s) s' →
  only_adds s (Some (List.length (heap s)), s').
Proof.
  intros Hu. split_and!; simpl; [done| |].
  - eapply prefix_of_untouched; [|done|exact Hu]. simpl. by apply prefix_app_r.
  - destruct Hu as [Hl _]. rewrite newNode_length in Hl. lia.
Qed.

Lemma buildJsonTree_adds node : adds_only buildJsonTree node.
Proof.
  induction node as [node IH] using json_Node_ind. intros parent key s.
  rewrite buildJsonTree_unfold. destruct (collapses node) eqn:Hcol.
  - unfold json_subnodes in IH.
    destruct (json.children node) as [[|keyNode [|valueNode rest]]|];
      simpl in IH; try done.
    apply stampKey_adds. inversion IH as [|? ? _ IH']. inversion IH' as [|? ? Hv _].
    by apply Hv.
  - by apply (only_adds_current (jsonTreeNode node parent key)),
      buildJsonChildren_untouched_step.
Qed.

Lemma buildJsonChildren_untouched node current s0 :
  untouched current s0 (buildJsonChildren node current s0).
Proof.
  apply buildJsonChildren_untouched_step, Forall_forall.
  intros child _. apply buildJsonTree_adds.
Qed.

Lemma buildYamlPairs_untouched_step current currentOffset items s0 index :
  Forall (adds_only buildYamlTree) (omap yaml.pair_value items) →
  untouched current s0
    (forEachFrom (λ pair _, buildYamlPair current currentOffset pair) index items s0).
Proof.
  intros Hvalues.
  apply (forEachFrom_invariant _ (λ s', untouched current s0 s'));
    [|apply untouched_refl].
  apply Forall_forall. intros pair Hin i s' Hs'.
  eapply untouched_trans; [exact Hs'|].
  unfold buildYamlPair. destruct (yaml.pair_value pair) as [value|] eqn:Hv.
  - apply attachValue_untouched. rewrite Forall_forall in Hvalues.
    apply Hvalues, list_elem_of_omap. eauto.
  - apply synthesizeNull_untouched.
Qed.

Lemma buildYamlChildren_untouched_step node current currentOffset s0 :
  Forall (adds_only buildYamlTree) (yaml_subnodes node) →
  untouched current s0 (buildYamlChildren node current currentOffset s0).
Proof.
  intros Hsub. unfold buildYamlChildren, yaml_subnodes in *.
  destruct (yaml.kind node) as [items|items|]; [| |apply untouched_refl].
  - by apply buildYamlPairs_untouched_step.
  - by apply (pushLoop_untouched buildYamlTree VNum).
Qed.

Lemma buildYamlTree_adds node : adds_only buildYamlTree node.
Proof.
  induction node as [node IH] using yaml_Node_ind. intros parent key s.
  rewrite buildYamlTree_unfold.
  destruct (getYamlRange (Some (yaml.range node))) as [span|]; [|done].
  by apply (only_adds_current (yamlTreeNode node span parent key)),
    buildYamlChildren_untouched_step.
Qed.

Lemma buildYamlPairs_untouched current currentOffset items s0 :
  untouched current s0 (buildYamlPairs current currentOffset items s0).
Proof.
  apply buildYamlPairs_untouched_step, Forall_forall.
  intros value _. apply buildYamlTree_adds.
Qed.

Lemma buildYamlItems_untouched current items s0 :
  untouched current s0 (buildYamlItems current items s0).
Proof.
  apply (pushLoop_untouched buildYamlTree VNum), Forall_forall.
  intros item _. apply buildYamlTree_adds.
Qed.

(** ** The parse builds a tree *)

Lemma shape_lt st i x : shape st i = Some x → (i < List.length (heap st))%nat.
Proof.
  unfold shape. destruct (heap st !! i) eqn:Hi; [|done]. intros _.
  by eapply lookup_lt_Some.
Qed.

Lemma shape_update r f st i :
  (∀ n, TreeNode.parent (f n) = TreeNode.parent n
        ∧ TreeNode.children (f n) = TreeNode.children n) →
  shape (update r f st) i = shape st i.
Proof.
  intros Hf. unfold shape, update. simpl. rewrite list_lookup_alter.
  case_decide as Hr; [subst i|done].
  destruct (heap st !! r) as [n|]; [|done]. simpl. by destruct (Hf n) as [-> ->].
Qed.

Lemma shape_setKeySpan r ko kl st i : shape (setKeySpan r ko kl st) i = shape st i.
Proof. unfold setKeySpan. by rewrite !shape_update. Qed.

Lemma shape_pushChild_ne current child st i :
  i ≠ current → shape (pushChild current child st) i = shape st i.
Proof. intros Hne. unfold shape, pushChild, update. simpl. by rewrite list_lookup_alter_ne. Qed.

Lemma shape_pushChild_eq current child st parent cs :
  shape st current = Some (parent, Some cs) →
  shape (pushChild current child st) current = Some (parent, Some (cs ++ [child])).
Proof.
  unfold shape, pushChild, update. simpl. rewrite list_lookup_alter_eq.
  destruct (heap st !! current) as [n|]; [|done]. simpl. intros [= <- Hcs].
  unfold push. simpl. by rewrite Hcs.
Qed.

Lemma shape_prefix s s' i :
  heap s `prefix_of` heap s' → (i < List.length (heap s))%nat → shape s' i = shape s i.
Proof.
  intros Hp Hi. unfold shape. destruct (lookup_lt_is_Some_2 _ _ Hi) as [n Hn].
  by rewrite Hn, (prefix_lookup_Some _ _ _ _ Hn Hp).
Qed.

Lemma shape_newNode_new n st :
  shape (newNode n st) (List.length (heap st))
  = Some (TreeNode.parent n, TreeNode.children n).
Proof. unfold shape. by rewrite newNode_lookup. Qed.

Lemma shape_newNode_old n st i :
  (i < List.length (heap st))%nat → shape (newNode n st) i = shape st i.
Proof. intros. apply shape_prefix; [|done]. simpl. by apply prefix_app_r. Qed.

Lemma tree_from_ext st st' c :
  (∀ i, shape st' i = shape st i) → tree_from st c → tree_from st' c.
Proof.
  intros He [H1 H2]. split.
  - intros i par chi Hi Hs. rewrite He in Hs.
    destruct (H1 _ _ _ Hi Hs) as (j & pj & cs & ? & ? & ? & ?).
    exists j, pj, cs. by rewrite He.
  - intros j pj cs i Hj Hs Hin. rewrite He in Hs.
    destruct (H2 _ _ _ _ Hj Hs Hin) as (? & chi & ?). split; [done|].
    exists chi. by rewrite He.
Qed.

(** A new object without children is a tree of its own. *)
Lemma tree_from_newNode n st :
  TreeNode.children n = Some [] → tree_from (newNode n st) (List.length (heap st)).
Proof.
  intros Hcs. split.
  - intros i par chi Hi Hs. apply shape_lt in Hs. rewrite newNode_length in Hs. lia.
  - intros j pj cs i Hj Hs Hin. apply shape_lt in Hs as Hlt.
    rewrite newNode_length in Hlt. assert (j = List.length (heap st)) as -> by lia.
    rewrite shape_newNode_new, Hcs in Hs. injection Hs as _ <-.
    by apply elem_of_nil in Hin.
Qed.

(** Pushing the root of a tree built after [s1] to the children of
    [current]. *)
Lemma under_construction_push parent current s1 s2 :
  (∀ i, (i < List.length (heap s1))%nat → shape s2 i = shape s1 i) →
  under_construction parent current s1 →
  (∃ chi, shape s2 (List.length (heap s1)) = Some (Some current, chi)) →
  tree_from s2 (List.length (heap s1)) →
  under_construction parent current (pushChild current (List.length (heap s1)) s2).
Proof.
  intros Hold [[cs Hcur] [Hup Hdown]] [chi1 Hroot] [Hup' Hdown'].
  set (c1 := List.length (heap s1)) in *.
  assert (current < c1)%nat as Hlt by by eapply shape_lt.
  assert (shape (pushChild current c1 s2) current = Some (parent, Some (cs ++ [c1])))
    as Hcur'.
  { apply shape_pushChild_eq. by rewrite Hold. }
  split; [by exists (cs ++ [c1])|]. split.
  - intros i par chi Hi Hs. rewrite shape_pushChild_ne in Hs by lia.
    destruct (lt_eq_lt_dec i c1) as [[Hic| -> ]|Hic].
    + rewrite Hold in Hs by done.
      destruct (Hup _ _ _ Hi Hs) as (j & pj & cs' & -> & Hj & Hsj & Hin).
      destruct (decide (j = current)) as [->|Hne].
      * rewrite Hcur in Hsj. injection Hsj as <- <-.
        exists current, parent, (cs ++ [c1]). split_and!; try done; try lia.
        apply elem_of_app. by left.
      * exists j, pj, cs'. split_and!; try done; try lia.
        rewrite shape_pushChild_ne by done. rewrite Hold by lia. done.
    + rewrite Hroot in Hs. injection Hs as <- <-.
      exists current, parent, (cs ++ [c1]). split_and!; try done; try lia.
      apply elem_of_app. right. apply list_elem_of_singleton. done.
    + destruct (Hup' _ _ _ Hic Hs) as (j & pj & cs' & -> & Hj & Hsj & Hin).
      exists j, pj, cs'. split_and!; try done; try lia.
      by rewrite shape_pushChild_ne by lia.
  - intros j pj cs' i Hj Hs Hin.
    destruct (decide (j = current)) as [->|Hne].
    + rewrite Hcur' in Hs. injection Hs as <- <-.
      apply elem_of_app in Hin as [Hin|Hin%list_elem_of_singleton].
      * destruct (Hdown _ _ _ _ (le_n _) Hcur Hin) as (Hci & chi & Hsi).
        split; [done|]. exists chi. rewrite shape_pushChild_ne by lia.
        rewrite Hold; [done|]. by eapply shape_lt.
      * subst i. split; [done|]. exists chi1. by rewrite shape_pushChild_ne by lia.
    + rewrite shape_pushChild_ne in Hs by done.
      destruct (le_lt_dec c1 j) as [Hjc|Hjc].
      * destruct (Hdown' _ _ _ _ Hjc Hs Hin) as (Hji & chi & Hsi).
        split; [done|]. exists chi. by rewrite shape_pushChild_ne by lia.
      * rewrite Hold in Hs by done.
        destruct (Hdown _ _ _ _ Hj Hs Hin) as (Hji & chi & Hsi).
        split; [done|]. exists chi. rewrite shape_pushChild_ne by lia.
        rewrite Hold; [done|]. by eapply shape_lt.
Qed.

Lemma under_construction_newNode n st :
  TreeNode.children n = Some [] →
  under_construction (TreeNode.parent n) (List.length (heap st)) (newNode n st).
Proof.
  intros Hcs. split; [|by apply tree_from_newNode].
  exists []. by rewrite shape_newNode_new, Hcs.
Qed.

Lemma pushBuilt_tree parent current s built :
  only_adds s built → builds_tree (Some current) built →
  under_construction parent current s →
  under_construction parent current (pushBuilt current built).
Proof.
  intros Hadds Htree Hc. unfold only_adds in Hadds.
  destruct built as [[c1|] s']; simpl in *; [|by subst].
  destruct Hadds as (-> & Hp & _). destruct (Htree _ eq_refl) as [Hroot Hfrom].
  apply under_construction_push; [|done..]. intros i Hi. by apply shape_prefix.
Qed.

Lemma stampKey_tree parent keyNode built :
  builds_tree parent built → builds_tree parent (stampKey keyNode built).
Proof.
  intros Htree c Hc. destruct built as [[c1|] s']; simpl in *; [|done].
  injection Hc as <-. destruct (Htree _ eq_refl) as [[chi Hroot] Hfrom]. split.
  - exists chi. by rewrite shape_setKeySpan.
  - eapply tree_from_ext; [|exact Hfrom]. intros i. apply shape_setKeySpan.
Qed.

Lemma attachValue_tree parent current pair s built :
  only_adds s built → builds_tree (Some current) built →
  under_construction parent current s →
  under_construction parent current (attachValue current pair built).
Proof.
  intros Hadds Htree Hc. unfold only_adds in Hadds.
  destruct built as [[c1|] s']; simpl in *; [|by subst].
  destruct Hadds as (-> & Hp & _). destruct (Htree _ eq_refl) as [[chi Hroot] Hfrom].
  destruct (getYamlRange (keyOrPair pair)) as [keyRange|].
  - apply under_construction_push; [|done| |].
    + intros i Hi. rewrite shape_setKeySpan. by apply shape_prefix.
    + exists chi. by rewrite shape_setKeySpan.
    + eapply tree_from_ext; [|exact Hfrom]. intros i. apply shape_setKeySpan.
  - apply under_construction_push; [|done|by exists chi|done].
    intros i Hi. by apply shape_prefix.
Qed.

Lemma synthesizeNull_tree parent current currentOffset pair s :
  under_construction parent current s →
  under_construction parent current (synthesizeNull current currentOffset pair s).
Proof.
  intros Hc. unfold synthesizeNull. simpl.
  change (nodeMap_set _ _ _) with (newNode (nullNodeFor current currentOffset pair) s).
  apply under_construction_push; [|done| |].
  - intros i Hi. by apply shape_newNode_old.
  - eexists. by rewrite shape_newNode_new.
  - by apply tree_from_newNode.
Qed.

Lemma pushLoop_tree {A} (build : A → option ref → JsValue → Store → option ref * Store)
    (keyOf : Z → JsValue) (parent : option ref) (current : ref) (items : list A)
    (s0 : Store) (index : Z) :
  Forall (adds_only build) items → Forall (tree_builder build) items →
  under_construction parent current s0 →
  under_construction parent current
    (forEachFrom (λ item index s,
       pushBuilt current (build item (Some current) (keyOf index) s))
       index items s0).
Proof.
  intros Hadds Htrees.
  apply (forEachFrom_invariant _ (under_construction parent current)).
  apply Forall_forall. intros item Hin i s' Hs'. simpl.
  rewrite Forall_forall in Hadds, Htrees.
  apply (pushBuilt_tree parent current s'); [by apply Hadds|by apply Htrees|done].
Qed.

Lemma builds_tree_current parent current s' :
  under_construction parent current s' → builds_tree parent (Some current, s').
Proof. intros [[cs Hcur] Hfrom] c [= <-]. split; [by exists (Some cs)|done]. Qed.

Lemma buildJsonTree_tree node : tree_builder buildJsonTree node.
Proof.
  induction node as [node IH] using json_Node_ind. intros parent key s.
  rewrite buildJsonTree_unfold. destruct (collapses node) eqn:Hcol.
  - unfold json_subnodes in IH.
    destruct (json.children node) as [[|keyNode [|valueNode rest]]|];
      simpl in IH; try done.
    apply stampKey_tree. inversion IH as [|? ? _ IH']. inversion IH' as [|? ? Hv _].
    by apply Hv.
  - apply builds_tree_current.
    assert (under_construction parent (List.length (heap s))
              (newNode (jsonTreeNode node parent key) s)) as H0
      by by apply (under_construction_newNode (jsonTreeNode node parent key)).
    assert (Forall (adds_only buildJsonTree) (json_subnodes node)) as Hadds
      by (apply Forall_forall; intros child _; apply buildJsonTree_adds).
    unfold buildJsonChildren, json_subnodes in *.
    destruct (json.children node) as [children|]; simpl in IH, Hadds; [|done].
    destruct (json.type node); try done.
    + by apply (pushLoop_tree buildJsonTree (λ _, VUndefined)).
    + by apply (pushLoop_tree buildJsonTree VNum).
Qed.

Lemma buildYamlTree_tree node : tree_builder buildYamlTree node.
Proof.
  induction node as [node IH] using yaml_Node_ind. intros parent key s.
  rewrite buildYamlTree_unfold.
  destruct (getYamlRange (Some (yaml.range node))) as [span|]; [|done].
  apply builds_tree_current.
  assert (under_construction parent (List.length (heap s))
            (newNode (yamlTreeNode node span parent key) s)) as H0
    by by apply (under_construction_newNode (yamlTreeNode node span parent key)).
  unfold buildYamlChildren, yaml_subnodes in *.
  destruct (yaml.kind node) as [items|items|]; [| |done].
  - apply (forEachFrom_invariant _ (under_construction parent (List.length (heap s))));
      [|done].
    apply Forall_forall. intros pair Hin i s' Hs'. unfold buildYamlPair.
    destruct (yaml.pair_value pair) as [value|] eqn:Hv.
    + apply (attachValue_tree _ _ _ s'); [apply buildYamlTree_adds| |done].
      rewrite Forall_forall in IH. apply IH, list_elem_of_omap. eauto.
    + by apply synthesizeNull_tree.
  - apply (pushLoop_tree buildYamlTree VNum); [|done..].
    apply Forall_forall. intros item _. apply buildYamlTree_adds.
Qed.

Lemma isDropped_unfold node :
  isDropped node =
    if collapses node then
      match json.children node with
      | Some (_ :: valueNode :: _) => isDropped valueNode
      | _ => true
      end
    else false.
Proof. destruct node as [[] v o l [[|k [|v' r]]|]]; reflexivity. Qed.

Lemma stampKey_fst keyNode built : (stampKey keyNode built).1 = built.1.
Proof. by destruct built as [[c|] s]. Qed.

Lemma buildJsonTree_None_iff node :
  ∀ parent key s, (buildJsonTree node parent key s).1 = None ↔ isDropped node = true.
Proof.
  induction node as [node IH] using json_Node_ind. intros parent key s.
  rewrite buildJsonTree_unfold, isDropped_unfold. destruct (collapses node); [|done].
  unfold json_subnodes in IH.
  destruct (json.children node) as [[|keyNode [|valueNode rest]]|]; simpl in IH; try done.
  rewrite stampKey_fst. inversion IH as [|? ? _ IH']. inversion IH' as [|? ? Hv _].
  apply Hv.
Qed.

(** X1: a call of [buildJsonTree] changes no object that was there before
    it; a node it returns is the first object it made; it returns nothing
    exactly for a property node whose value child is missing or is dropped
    itself, and then it has made no object and no index entry. *)
Theorem buildJsonTree_only_adds_nodes (node : json.Node) (parent : option ref)
    (key : JsValue) (st : Store) :
  heap st `prefix_of` heap (buildJsonTree node parent key st).2
  ∧ (∀ c, (buildJsonTree node parent key st).1 = Some c →
       c = List.length (heap st)
       ∧ (c < List.length (heap (buildJsonTree node parent key st).2))%nat)
  ∧ ((buildJsonTree node parent key st).1 = None ↔ isDropped node = true)
  ∧ ((buildJsonTree node parent key st).1 = None →
       (buildJsonTree node parent key st).2 = st).
Proof.
  pose proof (buildJsonTree_adds node parent key st) as Hadds.
  split_and!.
  - by apply only_adds_prefix.
  - intros c Hc. unfold only_adds in Hadds. rewrite Hc in Hadds. by destruct Hadds as (? & _ & ?).
  - apply buildJsonTree_None_iff.
  - intros Hnone. unfold only_adds in Hadds. by rewrite Hnone in Hadds.
Qed.

(** X2: a call of [buildYamlTree] changes no object that was there before
    it; a node it returns is the first object it made; it returns nothing
    exactly when the node's range is not resolved, and then it has made no
    object and no index entry. *)
Theorem buildYamlTree_only_adds_nodes (node : yaml.Node) (parent : option ref)
    (key : JsValue) (st : Store) :
  heap st `prefix_of` heap (buildYamlTree node parent key st).2
  ∧ (∀ c, (buildYamlTree node parent key st).1 = Some c →
       c = List.length (heap st)
       ∧ (c < List.length (heap (buildYamlTree node parent key st).2))%nat)
  ∧ ((buildYamlTree node parent key st).1 = None
     ↔ getYamlRange (Some (yaml.range node)) = None)
  ∧ ((buildYamlTree node parent key st).1 = None →
       (buildYamlTree node parent key st).2 = st).
Proof.
  pose proof (buildYamlTree_adds node parent key st) as Hadds.
  split_and!.
  - by apply only_adds_prefix.
  - intros c Hc. unfold only_adds in Hadds. rewrite Hc in Hadds. by destruct Hadds as (? & _ & ?).
  - rewrite buildYamlTree_unfold. by destruct (getYamlRange (Some (yaml.range node))).
  - intros Hnone. unfold only_adds in Hadds. by rewrite Hnone in Hadds.
Qed.

(** ** After a parse: the tree *)

Lemma parseTree_adds
    (json_parseTree : string → option json.Node)
    (yaml_parseDocument : string → yamlDocument.Parsed) activeTextEditor :
  only_adds emptyStore
    (tree (parseTree json_parseTree yaml_parseDocument activeTextEditor),
     store (parseTree json_parseTree yaml_parseDocument activeTextEditor))
  ∧ builds_tree None
      (tree (parseTree json_parseTree yaml_parseDocument activeTextEditor),
       store (parseTree json_parseTree yaml_parseDocument activeTextEditor)).
Proof.
  unfold parseTree. destruct activeTextEditor as [document|]; simpl; [|done].
  destruct (isYamlLanguage _).
  - unfold parseYamlTree. destruct (yaml_parseDocument _) as [|[contents|]]; [done| |done].
    destruct (buildYamlTree contents None VUndefined emptyStore) eqn:Hb. simpl.
    rewrite <- Hb. split; [apply buildYamlTree_adds|apply buildYamlTree_tree].
  - destruct (json_parseTree _) as [parsedJson|]; [|done].
    destruct (buildJsonTree parsedJson None VUndefined emptyStore) eqn:Hb. simpl.
    rewrite <- Hb. split; [apply buildJsonTree_adds|apply buildJsonTree_tree].
Qed.

Lemma parseTree_no_tree
    (json_parseTree : string → option json.Node)
    (yaml_parseDocument : string → yamlDocument.Parsed) activeTextEditor :
  tree (parseTree json_parseTree yaml_parseDocument activeTextEditor) = None →
  store (parseTree json_parseTree yaml_parseDocument activeTextEditor) = emptyStore.
Proof.
  intros Hnone.
  destruct (parseTree_adds json_parseTree yaml_parseDocument activeTextEditor)
    as [Hadds _].
  unfold only_adds in Hadds. simpl in Hadds. by rewrite Hnone in Hadds.
Qed.

(** X3: a parse that gives no tree leaves no node object and an empty
    index: there is never a partial tree behind an undefined [tree]. *)
Theorem failed_parse_leaves_nothing
    (json_parseTree : string → option json.Node)
    (yaml_parseDocument : string → yamlDocument.Parsed)
    (activeTextEditor : option vscode.TextDocument) :
  tree (parseTree json_parseTree yaml_parseDocument activeTextEditor) = None →
  store (parseTree json_parseTree yaml_parseDocument activeTextEditor) = emptyStore.
Proof. apply parseTree_no_tree. Qed.

Lemma failed_parse_leaves_nothing_witness :
  store (sample_parse EmptyString "json") = emptyStore.
Proof. apply failed_parse_leaves_nothing. reflexivity. Defined.

Lemma shape_Some st i par chi :
  shape st i = Some (par, chi)
  ↔ ∃ n, heap st !! i = Some n ∧ TreeNode.parent n = par ∧ TreeNode.children n = chi.
Proof.
  unfold shape. split.
  - destruct (heap st !! i) as [n|]; [|done]. intros [= <- <-]. by exists n.
  - intros (n & -> & <- & <-). done.
Qed.

Lemma parseTree_root
    (json_parseTree : string → option json.Node)
    (yaml_parseDocument : string → yamlDocument.Parsed) activeTextEditor root :
  tree (parseTree json_parseTree yaml_parseDocument activeTextEditor) = Some root →
  root = 0%nat
  ∧ (∃ chi, shape (store (parseTree json_parseTree yaml_parseDocument activeTextEditor)) 0
            = Some (None, chi))
  ∧ tree_from (store (parseTree json_parseTree yaml_parseDocument activeTextEditor)) 0.
Proof.
  intros Hroot.
  destruct (parseTree_adds json_parseTree yaml_parseDocument activeTextEditor)
    as [Hadds Htree].
  unfold only_adds in Hadds. simpl in Hadds. rewrite Hroot in Hadds.
  destruct Hadds as (-> & _). simpl. split; [done|]. by apply Htree.
Qed.

(** X4: after a parse, the children a node lists are nodes made after it,
    and each of them has this node as its parent. *)
Theorem children_point_back_to_their_parent
    (json_parseTree : string → option json.Node)
    (yaml_parseDocument : string → yamlDocument.Parsed)
    (activeTextEditor : option vscode.TextDocument)
    (r child : ref) (node : TreeNode.t) (children : list ref) :
  let p := parseTree json_parseTree yaml_parseDocument activeTextEditor in
  deref (store p) r = Some node →
  TreeNode.children node = Some children →
  child ∈ children →
  (r < child)%nat
  ∧ ∃ childNode, deref (store p) child = Some childNode
                 ∧ TreeNode.parent childNode = Some r.
Proof.
  intros p Hnode Hchildren Hin.
  destruct (tree p) as [root|] eqn:Hroot.
  - destruct (parseTree_root _ _ _ _ Hroot) as (_ & _ & _ & Hdown). fold p in Hdown.
    destruct (Hdown r (TreeNode.parent node) children child) as (Hlt & chi & Hchild);
      [lia| |done|].
    { apply shape_Some. by exists node. }
    split; [done|]. apply shape_Some in Hchild as (childNode & ? & ? & _).
    by exists childNode.
  - apply parseTree_no_tree in Hroot. fold p in Hroot.
    by rewrite Hroot in Hnode.
Qed.

Lemma children_point_back_to_their_parent_witness :
  (2 < 4)%nat
  ∧ ∃ childNode,
      deref (store (sample_parse sample_nested_text "json")) 4%nat = Some childNode
      ∧ TreeNode.parent childNode = Some 2%nat.
Proof.
  apply (children_point_back_to_their_parent sample_json_parseTree
           sample_yaml_parseDocument
           (Some {| vscode.getText := sample_nested_text; vscode.languageId := "json" |})
           2%nat 4%nat
           (TreeNode.mk 14 12 TArray VUndefined (Some 0%nat) (Some [3; 4]%nat) (VStr "b")
              (Some 9) (Some 3))
           [3; 4]%nat); [reflexivity|reflexivity|].
  apply list_elem_of_further, list_elem_of_here.
Defined.

(** X5: after a parse that gives a tree, the root is the first node made and
    has no parent; every other node has an earlier node as its parent; every
    node made is reachable from the root through [children], and so is every
    node the index holds. *)
Theorem every_node_hangs_from_the_root
    (json_parseTree : string → option json.Node)
    (yaml_parseDocument : string → yamlDocument.Parsed)
    (activeTextEditor : option vscode.TextDocument) (root : ref) :
  let p := parseTree json_parseTree yaml_parseDocument activeTextEditor in
  tree p = Some root →
  root = 0%nat
  ∧ (∃ rootNode, deref (store p) root = Some rootNode
                 ∧ TreeNode.parent rootNode = None)
  ∧ (∀ r node, deref (store p) r = Some node →
       reachable (store p) root r
       ∧ (r ≠ root → ∃ j, TreeNode.parent node = Some j ∧ (j < r)%nat))
  ∧ (∀ offset r, nodeMap (store p) !! offset = Some r → reachable (store p) root r).
Proof.
  intros p Hroot.
  destruct (parseTree_root _ _ _ _ Hroot) as (-> & [chi Hshape] & Hup & _).
  fold p in Hshape, Hup.
  assert (∀ r node, deref (store p) r = Some node →
            reachable (store p) 0 r
            ∧ (r ≠ 0%nat → ∃ j, TreeNode.parent node = Some j ∧ (j < r)%nat)) as Hall.
  { intros r. induction r as [r IH] using lt_wf_ind. intros node Hnode.
    destruct (decide (r = 0%nat)) as [->|Hne]; [split; [constructor|done]|].
    destruct (Hup r (TreeNode.parent node) (TreeNode.children node))
      as (j & pj & cs & Hpar & Hj & Hsj & Hin); [lia| |].
    { apply shape_Some. by exists node. }
    apply shape_Some in Hsj as (nj & Hnj & _ & Hcs).
    split; [|intros _; exists j; split; [done|lia]].
    destruct (IH j ltac:(lia) nj Hnj) as [Hreach _].
    by eapply reachable_child. }
  split_and!; [done| |done|].
  - apply shape_Some in Hshape as (rootNode & ? & ? & _). by exists rootNode.
  - intros offset r Hr.
    destruct (parseTree_ok json_parseTree yaml_parseDocument activeTextEditor)
      as (Hwf & _ & _). simpl in Hwf. fold p in Hwf.
    destruct (wf_index _ Hwf _ _ Hr) as (n & Hn & _). by apply (Hall r n).
Qed.

Lemma every_node_hangs_from_the_root_witness :
  reachable (store (sample_parse sample_nested_text "json")) 0 4.
Proof.
  destruct (every_node_hangs_from_the_root sample_json_parseTree
              sample_yaml_parseDocument
              (Some {| vscode.getText := sample_nested_text; vscode.languageId := "json" |})
              0%nat eq_refl) as (_ & _ & Hall & _).
  apply (Hall 4%nat
           (TreeNode.mk 21 4 TNull VNull (Some 2%nat) (Some []) (VNum 1) None None)).
  reflexivity.
Defined.

(** ** After a parse: the facade *)

Lemma parseTree_editor
    (json_parseTree : string → option json.Node)
    (yaml_parseDocument : string → yamlDocument.Parsed) activeTextEditor root :
  tree (parseTree json_parseTree yaml_parseDocument activeTextEditor) = Some root →
  ∃ document,
    activeTextEditor = Some document
    ∧ editor (parseTree json_parseTree yaml_parseDocument activeTextEditor) = Some document
    ∧ text (parseTree json_parseTree yaml_parseDocument activeTextEditor)
      = vscode.getText document
    ∧ languageId (parseTree json_parseTree yaml_parseDocument activeTextEditor)
      = Some (vscode.languageId document).
Proof.
  unfold parseTree. destruct activeTextEditor as [document|]; [|done]. intros _.
  exists document. by destruct (if isYamlLanguage _ then _ else _).
Qed.




Lemma getChildrenOffsets_all st cs :
  Forall (λ c, (c < List.length (heap st))%nat) cs →
  ∃ nodes, Forall2 (λ c n, deref st c = Some n) cs nodes
           ∧ omap (λ child, TreeNode.offset <$> deref st child) cs
             = TreeNode.offset <$> nodes.
Proof.
  induction 1 as [|c cs Hc _ (nodes & Hnodes & Heq)]; [by exists []|].
  destruct (lookup_lt_is_Some_2 _ _ Hc) as [n Hn].
  exists (n :: nodes). split; [by constructor|].
  rewrite fmap_cons, <- Heq. cbn [omap list_omap]. unfold deref at 1. by rewrite Hn.
Qed.

(** X7: after a parse, [getChildren] at the offset of an indexed node gives
    one offset for each child the node lists, in the order of the list; for
    a scalar node it gives the empty list. *)
Theorem getChildren_lists_every_child
    (json_parseTree : string → option json.Node)
    (yaml_parseDocument : string → yamlDocument.Parsed)
    (activeTextEditor : option vscode.TextDocument)
    (offset : Z) (r : ref) (node : TreeNode.t) :
  let p := parseTree json_parseTree yaml_parseDocument activeTextEditor in
  offset ≠ 0 →
  nodeMap_get (store p) offset = Some (r, node) →
  ∃ children childNodes,
    TreeNode.children node = Some children
    ∧ Forall2 (λ c n, deref (store p) c = Some n) children childNodes
    ∧ getChildren p (Some offset) = Returns (TreeNode.offset <$> childNodes)
    ∧ (TreeNode.type node ≠ TObject → TreeNode.type node ≠ TArray →
       getChildren p (Some offset) = Returns []).
Proof.
  intros p Hne Hget.
  destruct (parseTree_ok json_parseTree yaml_parseDocument activeTextEditor)
    as (Hwf & _ & _). simpl in Hwf. fold p in Hwf.
  assert (deref (store p) r = Some node) as Hnode.
  { unfold nodeMap_get in Hget. destruct (nodeMap (store p) !! offset) as [r0|]; [|done].
    simpl in Hget. destruct (deref (store p) r0) as [n0|] eqn:Hn0; [|done].
    by injection Hget as -> ->. }
  destruct (wf_children _ Hwf _ _ Hnode) as (cs & Hcs & Hall & Hty).
  destruct (getChildrenOffsets_all _ _ Hall) as (nodes & Hnodes & Heq).
  assert (getChildren p (Some offset) = Returns (TreeNode.offset <$> nodes)) as Hres.
  { unfold getChildren, truthy. rewrite (proj2 (Z.eqb_neq offset 0) Hne).
    destruct (tree p) as [root|] eqn:Hroot.
    - rewrite Hget. unfold getChildrenOffsets. by rewrite Hcs, Heq.
    - apply parseTree_no_tree in Hroot. fold p in Hroot.
      by rewrite Hroot in Hnode. }
  exists cs, nodes. split_and!; [done..|].
  intros Ho Ha. rewrite Hres. destruct cs as [|c cs].
  - by apply Forall2_nil_inv_l in Hnodes as ->.
  - by destruct Hty.
Qed.

Lemma getChildren_lists_every_child_witness :
  ∃ children childNodes,
    Some [3; 4]%nat = Some children
    ∧ Forall2 (λ c n, deref (store (sample_parse sample_nested_text "json")) c = Some n)
        children childNodes
    ∧ getChildren (sample_parse sample_nested_text "json") (Some 14)
      = Returns (TreeNode.offset <$> childNodes)
    ∧ (TArray ≠ TObject → TArray ≠ TArray →
       getChildren (sample_parse sample_nested_text "json") (Some 14) = Returns []).
Proof.
  apply (getChildren_lists_every_child sample_json_parseTree sample_yaml_parseDocument
           (Some {| vscode.getText := sample_nested_text; vscode.languageId := "json" |})
           14 2%nat
           (TreeNode.mk 14 12 TArray VUndefined (Some 0%nat) (Some [3; 4]%nat) (VStr "b")
              (Some 9) (Some 3))); [lia|reflexivity].
Defined.

Lemma arrayParent_children st node parent :
  wf st → arrayParent st node = Some parent →
  ∃ siblings, TreeNode.children parent = Some siblings.
Proof.
  intros Hwf. unfold arrayParent.
  destruct (TreeNode.parent node ≫= deref st) as [n|] eqn:Hn; [|done]. simpl.
  case_bool_decide; [|done]. intros [= <-].
  destruct (TreeNode.parent node) as [j|]; [|done]. simpl in Hn.
  destruct (wf_children _ Hwf _ _ Hn) as (cs & Hcs & _). by exists cs.
Qed.

Lemma getLabel_throws st p r node :
  store p = st → wf st →
  (∃ label, getLabel p r node = Returns label)
  ∨ (TreeNode.key node = VNull ∧ arrayParent st node = None
     ∧ getLabel p r node = Throws "TypeError").
Proof.
  intros <- Hwf. unfold getLabel.
  destruct (arrayParent (store p) node) as [parent|] eqn:Hparent.
  - left. destruct (arrayParent_children _ _ _ Hwf Hparent) as [siblings ->].
    destruct (TreeNode.type node); simpl; eauto.
  - destruct (TreeNode.key node) eqn:Hkey; simpl;
      try (left; destruct (TreeNode.type node); simpl; by eauto).
    right. by destruct (TreeNode.type node).
Qed.

(** X8: after a parse that gives a tree, [getTreeItem] at an offset of the
    index returns an item, whose context value is the node's type, unless
    the node's key is [null] and its parent is not an array: then, and only
    then, it throws, from [key.toString()]. *)
Theorem getTreeItem_fails_only_on_a_null_key
    (json_parseTree : string → option json.Node)
    (yaml_parseDocument : string → yamlDocument.Parsed)
    (activeTextEditor : option vscode.TextDocument)
    (root : ref) (offset : Z) (r : ref) (node : TreeNode.t) :
  let p := parseTree json_parseTree yaml_parseDocument activeTextEditor in
  tree p = Some root →
  nodeMap_get (store p) offset = Some (r, node) →
  (TreeNode.key node = VNull ∧ arrayParent (store p) node = None
   ∧ getTreeItem p offset = Throws "TypeError")
  ∨ (¬ (TreeNode.key node = VNull ∧ arrayParent (store p) node = None)
     ∧ ∃ item, getTreeItem p offset = Returns item
               ∧ vscode.contextValue item = TreeNode.type node
               ∧ vscode.iconPath item = getIcon node).
Proof.
  intros p Hroot Hget.
  destruct (parseTree_ok json_parseTree yaml_parseDocument activeTextEditor)
    as (Hwf & _ & _). simpl in Hwf. fold p in Hwf.
  destruct (parseTree_editor _ _ _ _ Hroot) as (document & _ & Hed & _). fold p in Hed.
  unfold getTreeItem. rewrite Hroot, Hed, Hget.
  destruct (getLabel_throws (store p) p r node eq_refl Hwf)
    as [[label Hlabel]|(Hkey & Hparent & Hthrows)].
  - right. rewrite Hlabel. simpl. split; [|by eexists].
    intros [Hkey Hparent]. unfold getLabel in Hlabel. rewrite Hparent, Hkey in Hlabel.
    by destruct (TreeNode.type node).
  - left. by rewrite Hthrows.
Qed.

Lemma getTreeItem_fails_only_on_a_null_key_witness :
  (VNull = VNull
   ∧ arrayParent (store sample_null_key_parse)
       (TreeNode.mk 6 1 TNumber (VNum 1) (Some 0%nat) (Some []) VNull (Some 0) (Some 4))
     = None
   ∧ getTreeItem sample_null_key_parse 6 = Throws "TypeError")
  ∨ (¬ (VNull = VNull
        ∧ arrayParent (store sample_null_key_parse)
            (TreeNode.mk 6 1 TNumber (VNum 1) (Some 0%nat) (Some []) VNull (Some 0)
               (Some 4))
          = None)
     ∧ ∃ item, getTreeItem sample_null_key_parse 6 = Returns item
               ∧ vscode.contextValue item = TNumber
               ∧ vscode.iconPath item = Some "number.svg"%string).
Proof.
  exact (getTreeItem_fails_only_on_a_null_key sample_json_parseTree
           (λ _, yamlDocument.Document (Some sample_null_key))
           (Some {| vscode.getText := "null: 1"; vscode.languageId := "yaml" |})
           0%nat 6 1%nat
           (TreeNode.mk 6 1 TNumber (VNum 1) (Some 0%nat) (Some []) VNull (Some 0) (Some 4))
           eq_refl eq_refl).
Defined.

(** The tree item of the value under a [null] key cannot be made. *)
Example null_key_breaks_the_tree_item :
  getTreeItem sample_null_key_parse 6 = Throws "TypeError"
  ∧ getChildren sample_null_key_parse None = Returns [6].
Proof. by vm_compute. Qed.

(** ** The children a loop pushes *)

Lemma with_children_twice cs cs' n :
  with_children cs' (with_children cs n) = with_children cs' n.
Proof. done. Qed.

Lemma untouched_lookup current s s' i :
  untouched current s s' → (i < List.length (heap s))%nat → i ≠ current →
  heap s' !! i = heap s !! i.
Proof. intros [_ H]. apply H. Qed.

(** The loop lemma: the children of [current] after the loop are those it
    had, then one new node for each item that makes a child, in order. *)
Lemma loop_children {A} (body : A → Z → Store → Store) (kept : A → bool)
    (D : Z → A → TreeNode.t → Prop) (current : ref) (items : list A) :
  (∀ x index s, x ∈ items → ready current s →
     if kept x then adds_child current (D index x) s (body x index s)
     else body x index s = s) →
  ∀ index s0 n0 cs0,
    heap s0 !! current = Some n0 → TreeNode.children n0 = Some cs0 →
    ∃ new,
      heap (forEachFrom body index items s0) !! current
      = Some (with_children (Some (cs0 ++ new)) n0)
      ∧ Forall2 (λ c ix, ∃ n, heap (forEachFrom body index items s0) !! c = Some n
                              ∧ D ix.1 ix.2 n)
          new (keptFrom kept index items)
      ∧ Forall (λ c, (List.length (heap s0) ≤ c)%nat) new
      ∧ NoDup new
      ∧ untouched current s0 (forEachFrom body index items s0).
Proof.
  induction items as [|x items IH]; intros Hbody index s0 n0 cs0 Hn0 Hcs0.
  - exists []. simpl. rewrite app_nil_r.
    split_and!; [|constructor..|apply untouched_refl].
    destruct n0. simpl in *. by subst.
  - simpl. specialize (Hbody x index s0 (list_elem_of_here _ _)
      (ex_intro _ n0 (ex_intro _ cs0 (conj Hn0 Hcs0)))) as Hx.
    assert (∀ x' index' s, x' ∈ items → ready current s →
              if kept x' then adds_child current (D index' x') s (body x' index' s)
              else body x' index' s = s) as Hrest
      by (intros; apply Hbody; [by apply list_elem_of_further|done]).
    destruct (kept x).
    + destruct Hx as (n & cs & child & Hn & Hcs & Hcur & Hchild & HD & Hu).
      assert (n = n0) as -> by congruence. assert (cs = cs0) as -> by congruence.
      set (c1 := List.length (heap s0)) in *. set (s1 := body x index s0) in *.
      destruct (IH Hrest (index + 1) s1 _ (cs0 ++ [c1]) Hcur eq_refl)
        as (new & Hcur' & Hnew & Hge & Hsorted & Hu').
      assert (c1 < List.length (heap s1))%nat as Hc1 by by eapply lookup_lt_Some.
      assert (current < c1)%nat as Hlt by by eapply lookup_lt_Some.
      exists (c1 :: new). simpl. split_and!.
      * rewrite Hcur', with_children_twice. by rewrite <- app_assoc.
      * constructor; [|done]. exists child. split; [|done].
        rewrite (untouched_lookup _ _ _ _ Hu') by (done || lia). done.
      * constructor; [done|]. eapply Forall_impl; [exact Hge|]. simpl.
        destruct Hu as [Hl _]. intros; lia.
      * constructor; [|done]. intros Hin. rewrite Forall_forall in Hge.
        apply Hge in Hin. lia.
      * by eapply untouched_trans.
    + rewrite Hx. simpl. by apply IH.
Qed.

Lemma pushChild_lookup_eq current child st n cs :
  heap st !! current = Some n → TreeNode.children n = Some cs →
  heap (pushChild current child st) !! current
  = Some (with_children (Some (cs ++ [child])) n).
Proof.
  intros Hn Hcs. unfold pushChild, update. simpl.
  rewrite list_lookup_alter_eq, Hn. simpl. unfold push. by rewrite Hcs.
Qed.

Lemma pushChild_lookup_ne current child st i :
  i ≠ current → heap (pushChild current child st) !! i = heap st !! i.
Proof. intros Hne. unfold pushChild, update. simpl. by rewrite list_lookup_alter_ne. Qed.

Lemma setKeySpan_lookup_eq r ko kl st n :
  heap st !! r = Some n →
  heap (setKeySpan r ko kl st) !! r = Some (with_keyLength kl (with_keyOffset ko n)).
Proof. intros Hn. unfold setKeySpan, update. simpl. by rewrite !list_lookup_alter_eq, Hn. Qed.

Lemma setKeySpan_lookup_ne r ko kl st i :
  i ≠ r → heap (setKeySpan r ko kl st) !! i = heap st !! i.
Proof. intros Hne. unfold setKeySpan, update. simpl. by rewrite !list_lookup_alter_ne. Qed.

Lemma pushBuilt_adds_child current (P : TreeNode.t → Prop) s built c child :
  only_adds s built → built.1 = Some c →
  heap built.2 !! c = Some child → P child →
  ready current s →
  adds_child current P s (pushBuilt current built).
Proof.
  intros Hadds Hc Hchild HP (n & cs & Hn & Hcs). unfold only_adds in Hadds.
  destruct built as [[c1|] s']; simpl in *; [|done]. injection Hc as ->.
  destruct Hadds as (-> & Hp & _).
  assert (current < List.length (heap s))%nat as Hlt by by eapply lookup_lt_Some.
  exists n, cs, child. split_and!; [done|done| | |done|].
  - apply pushChild_lookup_eq; [|done]. by eapply prefix_lookup_Some.
  - by rewrite pushChild_lookup_ne by lia.
  - by apply untouched_pushChild, untouched_prefix.
Qed.

Lemma pushBuilt_dropped current s built :
  only_adds s built → built.1 = None → pushBuilt current built = s.
Proof.
  unfold only_adds. destruct built as [[c|] s']; simpl; [done|]. by intros ->.
Qed.

Lemma attachValue_adds_child current pair (P : TreeNode.t → Prop) s built c child :
  only_adds s built → built.1 = Some c →
  heap built.2 !! c = Some child → P (stampEntry pair child) →
  ready current s →
  adds_child current P s (attachValue current pair built).
Proof.
  intros Hadds Hc Hchild HP (n & cs & Hn & Hcs).
  pose proof (attachValue_untouched current pair s built Hadds) as Hu.
  unfold only_adds in Hadds.
  destruct built as [[c1|] s']; simpl in *; [|done]. injection Hc as ->.
  destruct Hadds as (-> & Hp & _).
  assert (current < List.length (heap s))%nat as Hlt by by eapply lookup_lt_Some.
  pose proof (prefix_lookup_Some _ _ _ _ Hn Hp) as Hn'.
  exists n, cs, (stampEntry pair child). unfold stampEntry in *.
  destruct (getYamlRange (keyOrPair pair)) as [keyRange|].
  - split_and!; [done|done| | |done|done].
    + apply pushChild_lookup_eq; [|done]. by rewrite setKeySpan_lookup_ne by lia.
    + rewrite pushChild_lookup_ne by lia. by apply setKeySpan_lookup_eq.
  - split_and!; [done|done| | |done|done].
    + by apply pushChild_lookup_eq.
    + by rewrite pushChild_lookup_ne by lia.
Qed.

Lemma synthesizeNull_eq current currentOffset pair s :
  synthesizeNull current currentOffset pair s
  = pushChild current (List.length (heap s))
      (newNode (nullNodeFor current currentOffset pair) s).
Proof. reflexivity. Qed.

Lemma synthesizeNull_adds_child current currentOffset pair s :
  ready current s →
  adds_child current (λ n, n = nullNodeFor current currentOffset pair) s
    (synthesizeNull current currentOffset pair s).
Proof.
  intros (n & cs & Hn & Hcs).
  assert (current < List.length (heap s))%nat as Hlt by by eapply lookup_lt_Some.
  exists n, cs, (nullNodeFor current currentOffset pair).
  split_and!; [done|done| | |done|apply synthesizeNull_untouched].
  - rewrite synthesizeNull_eq. apply pushChild_lookup_eq; [|done].
    simpl. by apply lookup_app_l_Some.
  - rewrite synthesizeNull_eq, pushChild_lookup_ne by lia. apply newNode_lookup.
Qed.

Lemma jsonRoot_unfold node parent key :
  jsonRoot node parent key =
    if collapses node then
      match json.children node with
      | Some (keyNode :: valueNode :: _) =>
          (λ n, with_keyLength (Some (json.length keyNode))
                  (with_keyOffset (Some (json.offset keyNode)) n))
            <$> jsonRoot valueNode parent (json.value keyNode)
      | _ => None
      end
    else Some (jsonTreeNode node parent key).
Proof. destruct node as [[] v o l [[|k [|v' r]]|]]; reflexivity. Qed.

Lemma only_adds_root s built c :
  only_adds s built → built.1 = Some c → ∃ child, heap built.2 !! c = Some child.
Proof.
  unfold only_adds. intros Hadds Hc. rewrite Hc in Hadds.
  destruct Hadds as (_ & _ & Hlt). by apply lookup_lt_is_Some_2.
Qed.

Lemma adds_child_impl current (P Q : TreeNode.t → Prop) s s' :
  (∀ n, P n → Q n) → adds_child current P s s' → adds_child current Q s s'.
Proof.
  intros HPQ (n & cs & child & ? & ? & ? & ? & ? & ?).
  exists n, cs, child. split_and!; auto.
Qed.

(** One turn of the JSON loops. *)
Lemma json_turn (D : Z → json.Node → TreeNode.t → Prop) current (keyOf : Z → JsValue) :
  (∀ x index s c,
     (buildJsonTree x (Some current) (keyOf index) s).1 = Some c →
     ∃ child, heap (buildJsonTree x (Some current) (keyOf index) s).2 !! c = Some child
              ∧ D index x child) →
  ∀ x index s, ready current s →
    if jsonKept x
    then adds_child current (D index x) s
           (pushBuilt current (buildJsonTree x (Some current) (keyOf index) s))
    else pushBuilt current (buildJsonTree x (Some current) (keyOf index) s) = s.
Proof.
  intros HD x index s Hready. unfold jsonKept.
  pose proof (buildJsonTree_adds x (Some current) (keyOf index) s) as Hadds.
  pose proof (buildJsonTree_None_iff x (Some current) (keyOf index) s) as Hnone.
  destruct (isDropped x); simpl.
  - apply pushBuilt_dropped; [done|]. by apply Hnone.
  - destruct (buildJsonTree x (Some current) (keyOf index) s).1 as [c|] eqn:Hc;
      [|destruct Hnone as [Hn _]; by specialize (Hn eq_refl)].
    destruct (HD _ _ _ _ Hc) as (child & Hchild & HDchild).
    by eapply pushBuilt_adds_child.
Qed.

Lemma buildJsonChildren_loop (D : Z → json.Node → TreeNode.t → Prop) node current s0 n0 cs0 :
  (∀ x index s c,
     (buildJsonTree x (Some current) (jsonChildKey (json.type node) index) s).1 = Some c →
     ∃ child,
       heap (buildJsonTree x (Some current) (jsonChildKey (json.type node) index) s).2 !! c
       = Some child
       ∧ D index x child) →
  heap s0 !! current = Some n0 → TreeNode.children n0 = Some cs0 →
  ∃ new,
    heap (buildJsonChildren node current s0) !! current
    = Some (with_children (Some (cs0 ++ new)) n0)
    ∧ Forall2 (λ c ix, ∃ n, heap (buildJsonChildren node current s0) !! c = Some n
                            ∧ D ix.1 ix.2 n)
        new (keptFrom jsonKept 0 (jsonLoopItems node))
    ∧ Forall (λ c, (List.length (heap s0) ≤ c)%nat) new
    ∧ NoDup new
    ∧ untouched current s0 (buildJsonChildren node current s0).
Proof.
  intros HD Hn0 Hcs0.
  assert (∃ new,
    heap s0 !! current = Some (with_children (Some (cs0 ++ new)) n0)
    ∧ Forall2 (λ c ix, ∃ n, heap s0 !! c = Some n ∧ D ix.1 ix.2 n)
        new (@nil (Z * json.Node))
    ∧ Forall (λ c, (List.length (heap s0) ≤ c)%nat) new
    ∧ NoDup new ∧ untouched current s0 s0) as Hnothing.
  { exists []. rewrite app_nil_r. split_and!; [|constructor..|apply untouched_refl].
    destruct n0. simpl in *. by subst. }
  unfold buildJsonChildren, jsonLoopItems.
  destruct (json.children node) as [children|]; [|done].
  destruct (json.type node) eqn:Hty; try done.
  - apply (loop_children _ jsonKept D); [|done..].
    intros x index s _. by apply (json_turn D current (λ _, VUndefined)).
  - apply (loop_children _ jsonKept D); [|done..].
    intros x index s _. by apply (json_turn D current VNum).
Qed.

(** The node a call returns is the one [jsonRoot] describes, with the
    children the loops have pushed. *)
Lemma buildJsonTree_root node :
  ∀ parent key s c,
    (buildJsonTree node parent key s).1 = Some c →
    ∃ t cs,
      jsonRoot node parent key = Some t
      ∧ heap (buildJsonTree node parent key s).2 !! c = Some (with_children (Some cs) t).
Proof.
  induction node as [node IH] using json_Node_ind. intros parent key s c.
  rewrite buildJsonTree_unfold, jsonRoot_unfold. destruct (collapses node).
  - unfold json_subnodes in IH.
    destruct (json.children node) as [[|keyNode [|valueNode rest]]|];
      simpl in IH; try done.
    inversion IH as [|? ? _ IH']. inversion IH' as [|? ? Hv _].
    specialize (Hv parent (json.value keyNode) s).
    destruct (buildJsonTree valueNode parent (json.value keyNode) s) as [[c1|] s'];
      simpl; [|done].
    intros [= <-]. destruct (Hv c1 eq_refl) as (t & cs & -> & Ht). simpl in Ht.
    eexists _, cs. split; [done|].
    by rewrite !list_lookup_alter_eq, Ht.
  - simpl. intros [= <-].
    destruct (buildJsonChildren_loop (λ _ _ _, True) node (List.length (heap s))
                (newNode (jsonTreeNode node parent key) s)
                (jsonTreeNode node parent key) [])
      as (new & Hcur & _); [|apply newNode_lookup|done|].
    + intros x index s' c' Hc'.
      destruct (only_adds_root _ _ _ (buildJsonTree_adds x _ _ s') Hc') as [child ?].
      by exists child.
    + by exists (jsonTreeNode node parent key), new.
Qed.

Lemma buildJsonChildren_children node current s0 n0 cs0 :
  heap s0 !! current = Some n0 → TreeNode.children n0 = Some cs0 →
  ∃ new,
    heap (buildJsonChildren node current s0) !! current
    = Some (with_children (Some (cs0 ++ new)) n0)
    ∧ Forall2 (λ c ix, ∃ n, heap (buildJsonChildren node current s0) !! c = Some n
                            ∧ jsonChild current (json.type node) ix.1 ix.2 n)
        new (keptFrom jsonKept 0 (jsonLoopItems node))
    ∧ Forall (λ c, (List.length (heap s0) ≤ c)%nat) new
    ∧ NoDup new
    ∧ untouched current s0 (buildJsonChildren node current s0).
Proof.
  apply (buildJsonChildren_loop (jsonChild current (json.type node))).
  intros x index s c Hc.
  destruct (buildJsonTree_root x _ _ _ _ Hc) as (t & cs & Ht & Hchild).
  eexists. split; [exact Hchild|]. by exists t, cs.
Qed.

(** One turn of the loop over the entries of a mapping. *)
Lemma yaml_pair_turn (D : Z → yaml.Pair → TreeNode.t → Prop) current currentOffset :
  (∀ pair value s c,
     yaml.pair_value pair = Some value →
     (buildYamlTree value (Some current) (getYamlPairKey pair) s).1 = Some c →
     ∃ child,
       heap (buildYamlTree value (Some current) (getYamlPairKey pair) s).2 !! c = Some child
       ∧ ∀ index, D index pair (stampEntry pair child)) →
  (∀ pair index, yaml.pair_value pair = None →
     D index pair (nullNodeFor current currentOffset pair)) →
  ∀ pair (index : Z) s, ready current s →
    if entryKept pair
    then adds_child current (D index pair) s (buildYamlPair current currentOffset pair s)
    else buildYamlPair current currentOffset pair s = s.
Proof.
  intros HD Hnull pair index s Hready. unfold entryKept, buildYamlPair.
  destruct (yaml.pair_value pair) as [value|] eqn:Hv.
  - pose proof (buildYamlTree_adds value (Some current) (getYamlPairKey pair) s) as Hadds.
    assert ((buildYamlTree value (Some current) (getYamlPairKey pair) s).1 = None
            ↔ getYamlRange (Some (yaml.range value)) = None) as Hnone.
    { rewrite buildYamlTree_unfold. by destruct (getYamlRange (Some (yaml.range value))). }
    case_bool_decide as Hrange.
    + destruct (buildYamlTree value (Some current) (getYamlPairKey pair) s).1
        as [c|] eqn:Hc.
      * destruct (HD _ _ _ _ Hv Hc) as (child & Hchild & HDchild).
        by eapply attachValue_adds_child.
      * destruct Hrange as [span Hspan]. rewrite (proj1 Hnone eq_refl) in Hspan. done.
    + assert ((buildYamlTree value (Some current) (getYamlPairKey pair) s).1 = None)
        as Hdropped.
      { apply Hnone. destruct (getYamlRange (Some (yaml.range value))); [|done].
        destruct Hrange. eauto. }
      unfold only_adds in Hadds. rewrite Hdropped in Hadds.
      destruct (buildYamlTree value (Some current) (getYamlPairKey pair) s) as [r s'].
      simpl in *. by subst.
  - eapply (adds_child_impl); [|by apply synthesizeNull_adds_child].
    intros n ->. by apply Hnull.
Qed.

Lemma buildYamlPairs_loop (D : Z → yaml.Pair → TreeNode.t → Prop)
    current currentOffset items s0 n0 cs0 :
  (∀ pair value s c,
     yaml.pair_value pair = Some value →
     (buildYamlTree value (Some current) (getYamlPairKey pair) s).1 = Some c →
     ∃ child,
       heap (buildYamlTree value (Some current) (getYamlPairKey pair) s).2 !! c = Some child
       ∧ ∀ index, D index pair (stampEntry pair child)) →
  (∀ pair index, yaml.pair_value pair = None →
     D index pair (nullNodeFor current currentOffset pair)) →
  heap s0 !! current = Some n0 → TreeNode.children n0 = Some cs0 →
  ∃ new,
    heap (buildYamlPairs current currentOffset items s0) !! current
    = Some (with_children (Some (cs0 ++ new)) n0)
    ∧ Forall2 (λ c ix,
         ∃ n, heap (buildYamlPairs current currentOffset items s0) !! c = Some n
              ∧ D ix.1 ix.2 n)
        new (keptFrom entryKept 0 items)
    ∧ Forall (λ c, (List.length (heap s0) ≤ c)%nat) new
    ∧ NoDup new
    ∧ untouched current s0 (buildYamlPairs current currentOffset items s0).
Proof.
  intros HD Hnull Hn0 Hcs0. unfold buildYamlPairs, forEach.
  apply (loop_children _ entryKept D); [|done..].
  intros pair index s _. by apply yaml_pair_turn.
Qed.

(** One turn of the loop over the items of a sequence. *)
Lemma yaml_item_turn (D : Z → yaml.Node → TreeNode.t → Prop) current :
  (∀ item index s c,
     (buildYamlTree item (Some current) (VNum index) s).1 = Some c →
     ∃ child, heap (buildYamlTree item (Some current) (VNum index) s).2 !! c = Some child
              ∧ D index item child) →
  ∀ item index s, ready current s →
    if itemKept item
    then adds_child current (D index item) s
           (pushBuilt current (buildYamlTree item (Some current) (VNum index) s))
    else pushBuilt current (buildYamlTree item (Some current) (VNum index) s) = s.
Proof.
  intros HD item index s Hready. unfold itemKept.
  pose proof (buildYamlTree_adds item (Some current) (VNum index) s) as Hadds.
  assert ((buildYamlTree item (Some current) (VNum index) s).1 = None
          ↔ getYamlRange (Some (yaml.range item)) = None) as Hnone.
  { rewrite buildYamlTree_unfold. by destruct (getYamlRange (Some (yaml.range item))). }
  case_bool_decide as Hrange.
  - destruct (buildYamlTree item (Some current) (VNum index) s).1 as [c|] eqn:Hc.
    + destruct (HD _ _ _ _ Hc) as (child & Hchild & HDchild).
      by eapply pushBuilt_adds_child.
    + destruct Hrange as [span Hspan]. rewrite (proj1 Hnone eq_refl) in Hspan. done.
  - apply pushBuilt_dropped; [done|]. apply Hnone.
    destruct (getYamlRange (Some (yaml.range item))); [|done]. destruct Hrange. eauto.
Qed.

Lemma buildYamlItems_loop (D : Z → yaml.Node → TreeNode.t → Prop) current items s0 n0 cs0 :
  (∀ item index s c,
     (buildYamlTree item (Some current) (VNum index) s).1 = Some c →
     ∃ child, heap (buildYamlTree item (Some current) (VNum index) s).2 !! c = Some child
              ∧ D index item child) →
  heap s0 !! current = Some n0 → TreeNode.children n0 = Some cs0 →
  ∃ new,
    heap (buildYamlItems current items s0) !! current
    = Some (with_children (Some (cs0 ++ new)) n0)
    ∧ Forall2 (λ c ix, ∃ n, heap (buildYamlItems current items s0) !! c = Some n
                            ∧ D ix.1 ix.2 n)
        new (keptFrom itemKept 0 items)
    ∧ Forall (λ c, (List.length (heap s0) ≤ c)%nat) new
    ∧ NoDup new
    ∧ untouched current s0 (buildYamlItems current items s0).
Proof.
  intros HD Hn0 Hcs0. unfold buildYamlItems, forEach.
  apply (loop_children _ itemKept D); [|done..].
  intros item index s _. by apply yaml_item_turn.
Qed.

(** The node a call of the YAML builder returns is the one it made first,
    with the children the loops have pushed. *)
Lemma buildYamlTree_root node parent key s c span :
  getYamlRange (Some (yaml.range node)) = Some span →
  (buildYamlTree node parent key s).1 = Some c →
  ∃ cs, heap (buildYamlTree node parent key s).2 !! c
        = Some (with_children (Some cs) (yamlTreeNode node span parent key)).
Proof.
  intros Hspan. rewrite buildYamlTree_unfold, Hspan. simpl. intros [= <-].
  set (n0 := yamlTreeNode node span parent key).
  unfold buildYamlChildren. destruct (yaml.kind node) as [items|items|].
  - destruct (buildYamlPairs_loop (λ _ _ _, True) (List.length (heap s)) (start span)
                items (newNode n0 s) n0 [])
      as (new & Hcur & _); [| |apply newNode_lookup|done|by exists new].
    + intros pair value s' c' _ Hc'.
      destruct (only_adds_root _ _ _ (buildYamlTree_adds value _ _ s') Hc') as [child ?].
      by exists child.
    + done.
  - destruct (buildYamlItems_loop (λ _ _ _, True) (List.length (heap s))
                items (newNode n0 s) n0 [])
      as (new & Hcur & _); [|apply newNode_lookup|done|by exists new].
    intros item index s' c' Hc'.
    destruct (only_adds_root _ _ _ (buildYamlTree_adds item _ _ s') Hc') as [child ?].
    by exists child.
  - exists []. by rewrite newNode_lookup.
Qed.

Lemma keptFrom_all {A} (kept : A → bool) (items : list A) :
  Forall (λ x, kept x = true) items →
  ∀ index i,
    keptFrom kept index items !! i = (λ x, (index + Z.of_nat i, x)) <$> items !! i.
Proof.
  induction 1 as [|x items Hx _ IH]; intros index i; [done|].
  simpl. rewrite Hx. destruct i as [|i]; simpl.
  - by rewrite Z.add_0_r.
  - rewrite IH. destruct (items !! i); [|done]. simpl. do 2 f_equal. lia.
Qed.

Lemma keptFrom_all_length {A} (kept : A → bool) (items : list A) index :
  Forall (λ x, kept x = true) items →
  List.length (keptFrom kept index items) = List.length items.
Proof.
  intros Hall. revert index. induction Hall as [|x items Hx _ IH]; intros index; [done|].
  simpl. rewrite Hx. simpl. by rewrite IH.
Qed.

Lemma indexOf_NoDup (children : list ref) (i : nat) (c : ref) :
  NoDup children → children !! i = Some c → indexOf children c = Z.of_nat i.
Proof.
  intros Hnd Hi. unfold indexOf.
  destruct (list_find (λ c', c' = c) children) as [[j y]|] eqn:Hfind.
  - apply list_find_Some in Hfind as (Hj & -> & _).
    by rewrite (NoDup_lookup _ _ _ _ Hnd Hj Hi).
  - apply list_find_None in Hfind. rewrite Forall_forall in Hfind.
    destruct (Hfind c); [|done]. by eapply list_elem_of_lookup_2.
Qed.

Lemma isDropped_not_collapsed node : collapses node = false → jsonKept node = true.
Proof. intros H. unfold jsonKept. by rewrite isDropped_unfold, H. Qed.

Lemma jsonRoot_not_collapsed node parent key :
  collapses node = false → jsonRoot node parent key = Some (jsonTreeNode node parent key).
Proof. intros H. by rewrite jsonRoot_unfold, H. Qed.

Lemma buildJsonTree_lists_children node parent key st :
  collapses node = false →
  ∃ children,
    (buildJsonTree node parent key st).1 = Some (List.length (heap st))
    ∧ deref (buildJsonTree node parent key st).2 (List.length (heap st))
      = Some (with_children (Some children) (jsonTreeNode node parent key))
    ∧ NoDup children
    ∧ Forall2 (λ c ix, ∃ n t cs,
         deref (buildJsonTree node parent key st).2 c = Some n
         ∧ jsonRoot ix.2 (Some (List.length (heap st)))
             (jsonChildKey (json.type node) ix.1) = Some t
         ∧ n = with_children (Some cs) t)
        children (keptFrom jsonKept 0 (jsonLoopItems node)).
Proof.
  intros Hcol. rewrite buildJsonTree_unfold, Hcol. simpl.
  destruct (buildJsonChildren_children node (List.length (heap st))
              (newNode (jsonTreeNode node parent key) st)
              (jsonTreeNode node parent key) [])
    as (new & Hcur & Hnew & _ & Hnd & _); [apply newNode_lookup|done|].
  exists new. split_and!; [done..|].
  eapply Forall2_impl; [exact Hnew|]. simpl.
  intros c ix (n & Hn & t & cs & Ht & ->). by exists (with_children (Some cs) t), t, cs.
Qed.

(** X9: for a JSON syntax node that gets a node of its own, the node lists
    one child for each syntax child of an object or array that is not
    dropped, in their order and without repeats, and nothing for any other
    kind of node; each child is the node [jsonRoot] gives for its syntax
    node, under this node, with the position as key in an array. *)
Theorem json_node_lists_its_children (node : json.Node) (parent : option ref)
    (key : JsValue) (st : Store) :
  collapses node = false →
  let current := List.length (heap st) in
  let built := buildJsonTree node parent key st in
  ∃ children,
    built.1 = Some current
    ∧ deref built.2 current
      = Some (with_children (Some children) (jsonTreeNode node parent key))
    ∧ NoDup children
    ∧ Forall2 (λ c ix, ∃ n t cs,
         deref built.2 c = Some n
         ∧ jsonRoot ix.2 (Some current) (jsonChildKey (json.type node) ix.1) = Some t
         ∧ n = with_children (Some cs) t)
        children (keptFrom jsonKept 0 (jsonLoopItems node)).
Proof. apply buildJsonTree_lists_children. Qed.

Lemma json_node_lists_its_children_witness :
  ∃ children,
    (buildJsonTree sample_nested None VUndefined emptyStore).1 = Some 0%nat
    ∧ deref (buildJsonTree sample_nested None VUndefined emptyStore).2 0%nat
      = Some (with_children (Some children) (jsonTreeNode sample_nested None VUndefined))
    ∧ NoDup children
    ∧ Forall2 (λ c ix, ∃ n t cs,
         deref (buildJsonTree sample_nested None VUndefined emptyStore).2 c = Some n
         ∧ jsonRoot ix.2 (Some 0%nat) (jsonChildKey json.object ix.1) = Some t
         ∧ n = with_children (Some cs) t)
        children (keptFrom jsonKept 0 (jsonLoopItems sample_nested)).
Proof.
  exact (json_node_lists_its_children sample_nested None VUndefined emptyStore eq_refl).
Defined.

(** X10: for a JSON object whose children are property nodes with a key
    and a value that is no property node, the node lists one child for each
    property, in order; the child has the object as parent, the value's span
    and type, the key child's value as key, and the key child's span as key
    span. *)
Theorem json_object_child_per_property (node : json.Node) (parent : option ref)
    (key : JsValue) (st : Store) (properties : list json.Node) :
  json.type node = json.object →
  json.children node = Some properties →
  Forall (λ property,
    ∃ keyNode valueNode rest,
      json.type property = json.property
      ∧ json.children property = Some (keyNode :: valueNode :: rest)
      ∧ collapses valueNode = false) properties →
  let current := List.length (heap st) in
  let built := buildJsonTree node parent key st in
  ∃ children,
    deref built.2 current
    = Some (with_children (Some children) (jsonTreeNode node parent key))
    ∧ List.length children = List.length properties
    ∧ ∀ i property keyNode valueNode rest,
        properties !! i = Some property →
        json.children property = Some (keyNode :: valueNode :: rest) →
        ∃ c cs,
          children !! i = Some c
          ∧ deref built.2 c
            = Some (TreeNode.mk (json.offset valueNode) (json.length valueNode)
                      (normalizeNodeType (json.type valueNode)) (json.value valueNode)
                      (Some current) (Some cs) (json.value keyNode)
                      (Some (json.offset keyNode)) (Some (json.length keyNode))).
Proof.
  intros Hty Hchildren Hprops current built.
  assert (collapses node = false) as Hcol by (unfold collapses; by rewrite Hty).
  destruct (buildJsonTree_lists_children node parent key st Hcol)
    as (new & _ & Hcur & _ & Hnew).
  fold current built in Hcur, Hnew.
  assert (jsonLoopItems node = properties) as Hitems
    by (unfold jsonLoopItems; by rewrite Hchildren, Hty).
  rewrite Hitems in Hnew.
  assert (Forall (λ x, jsonKept x = true) properties) as Hkept.
  { eapply Forall_impl; [exact Hprops|]. simpl.
    intros x (k & v & r & Hx & Hcs & Hv). unfold jsonKept.
    rewrite isDropped_unfold. unfold collapses at 1. rewrite Hx, Hcs.
    by rewrite isDropped_unfold, Hv. }
  exists new. split_and!; [done| |].
  - apply Forall2_length in Hnew. by rewrite Hnew, keptFrom_all_length.
  - intros i property keyNode valueNode rest Hi Hcs.
    destruct (Forall2_lookup_r _ _ _ i (Z.of_nat i, property) Hnew)
      as (c & Hc & n & t & cs & Hn & Ht & ->).
    { rewrite keptFrom_all by done. by rewrite Hi. }
    rewrite Forall_forall in Hprops.
    destruct (Hprops property) as (k & v & r & Hx & Hcs' & Hv);
      [by eapply list_elem_of_lookup_2|].
    rewrite Hcs in Hcs'. injection Hcs' as <- <- <-.
    simpl in Ht. rewrite jsonRoot_unfold in Ht. unfold collapses at 1 in Ht.
    rewrite Hx, Hcs, (jsonRoot_not_collapsed _ _ _ Hv) in Ht. simpl in Ht.
    injection Ht as <-. by exists c, cs.
Qed.

Lemma json_object_child_per_property_witness :
  ∃ children,
    deref (buildJsonTree sample_nested None VUndefined emptyStore).2 0%nat
    = Some (with_children (Some children) (jsonTreeNode sample_nested None VUndefined))
    ∧ List.length children = 2%nat
    ∧ ∀ i property keyNode valueNode rest,
        [json.mk json.property VUndefined 1 6
           (Some [json.mk json.string (VStr "a") 1 3 None;
                  json.mk json.number (VNum 1) 6 1 None]);
         json.mk json.property VUndefined 9 17
           (Some [json.mk json.string (VStr "b") 9 3 None;
                  json.mk json.array VUndefined 14 12
                    (Some [json.mk json.boolean (VBool true) 15 4 None;
                           json.mk json.null VNull 21 4 None])])] !! i = Some property →
        json.children property = Some (keyNode :: valueNode :: rest) →
        ∃ c cs,
          children !! i = Some c
          ∧ deref (buildJsonTree sample_nested None VUndefined emptyStore).2 c
            = Some (TreeNode.mk (json.offset valueNode) (json.length valueNode)
                      (normalizeNodeType (json.type valueNode)) (json.value valueNode)
                      (Some 0%nat) (Some cs) (json.value keyNode)
                      (Some (json.offset keyNode)) (Some (json.length keyNode))).
Proof.
  refine (json_object_child_per_property sample_nested None VUndefined emptyStore _
            eq_refl eq_refl _).
  repeat constructor; eexists _, _, _; split_and!; reflexivity.
Defined.

(** X11: for a JSON array whose elements are no property nodes, the node
    lists one child for each element, in order; the child at a position has
    the array as parent and the position as key, and [indexOf] finds it at
    that position among the children. *)
Theorem json_array_child_per_element (node : json.Node) (parent : option ref)
    (key : JsValue) (st : Store) (elements : list json.Node) :
  json.type node = json.array →
  json.children node = Some elements →
  Forall (λ element, collapses element = false) elements →
  let current := List.length (heap st) in
  let built := buildJsonTree node parent key st in
  ∃ children,
    deref built.2 current
    = Some (with_children (Some children) (jsonTreeNode node parent key))
    ∧ List.length children = List.length elements
    ∧ ∀ i element,
        elements !! i = Some element →
        ∃ c cs,
          children !! i = Some c
          ∧ indexOf children c = Z.of_nat i
          ∧ deref built.2 c
            = Some (with_children (Some cs)
                      (jsonTreeNode element (Some current) (VNum (Z.of_nat i)))).
Proof.
  intros Hty Hchildren Helems current built.
  assert (collapses node = false) as Hcol by (unfold collapses; by rewrite Hty).
  destruct (buildJsonTree_lists_children node parent key st Hcol)
    as (new & _ & Hcur & Hnd & Hnew).
  fold current built in Hcur, Hnew.
  assert (jsonLoopItems node = elements) as Hitems
    by (unfold jsonLoopItems; by rewrite Hchildren, Hty).
  rewrite Hitems, Hty in Hnew.
  assert (Forall (λ x, jsonKept x = true) elements) as Hkept.
  { eapply Forall_impl; [exact Helems|]. apply isDropped_not_collapsed. }
  exists new. split_and!; [done| |].
  - apply Forall2_length in Hnew. by rewrite Hnew, keptFrom_all_length.
  - intros i element Hi.
    destruct (Forall2_lookup_r _ _ _ i (Z.of_nat i, element) Hnew)
      as (c & Hc & n & t & cs & Hn & Ht & ->).
    { rewrite keptFrom_all by done. by rewrite Hi. }
    rewrite Forall_forall in Helems.
    simpl in Ht. rewrite jsonRoot_not_collapsed in Ht
      by (apply Helems; by eapply list_elem_of_lookup_2).
    injection Ht as <-. exists c, cs. split_and!; [done| |done].
    by apply indexOf_NoDup.
Qed.

Lemma json_array_child_per_element_witness :
  ∃ children,
    deref (buildJsonTree sample_array None VUndefined emptyStore).2 0%nat
    = Some (with_children (Some children) (jsonTreeNode sample_array None VUndefined))
    ∧ List.length children = 1%nat
    ∧ ∀ i element,
        [json.mk json.number (VNum 1) 1 1 None] !! i = Some element →
        ∃ c cs,
          children !! i = Some c
          ∧ indexOf children c = Z.of_nat i
          ∧ deref (buildJsonTree sample_array None VUndefined emptyStore).2 c
            = Some (with_children (Some cs)
                      (jsonTreeNode element (Some 0%nat) (VNum (Z.of_nat i)))).
Proof.
  refine (json_array_child_per_element sample_array None VUndefined emptyStore _
            eq_refl eq_refl _).
  repeat constructor.
Defined.

Lemma buildYamlTree_lists_children node parent key st span :
  getYamlRange (Some (yaml.range node)) = Some span →
  ∃ children,
    (buildYamlTree node parent key st).1 = Some (List.length (heap st))
    ∧ deref (buildYamlTree node parent key st).2 (List.length (heap st))
      = Some (with_children (Some children) (yamlTreeNode node span parent key))
    ∧ NoDup children
    ∧ match yaml.kind node with
      | yaml.Map entries =>
          Forall2 (λ c ix, ∃ n,
             deref (buildYamlTree node parent key st).2 c = Some n
             ∧ entryChild (List.length (heap st)) (start span) ix.2 n)
            children (keptFrom entryKept 0 entries)
      | yaml.Seq items =>
          Forall2 (λ c ix, ∃ n,
             deref (buildYamlTree node parent key st).2 c = Some n
             ∧ itemChild (List.length (heap st)) ix.1 ix.2 n)
            children (keptFrom itemKept 0 items)
      | yaml.Scalar => children = []
      end.
Proof.
  intros Hspan. rewrite buildYamlTree_unfold, Hspan. simpl.
  set (n0 := yamlTreeNode node span parent key).
  set (current := List.length (heap st)).
  unfold buildYamlChildren. destruct (yaml.kind node) as [entries|items|].
  - destruct (buildYamlPairs_loop (λ _, entryChild current (start span))
                current (start span) entries (newNode n0 st) n0 [])
      as (new & Hcur & Hnew & _ & Hnd & _); [| |apply newNode_lookup|done|].
    + intros pair value s c Hv Hc. unfold entryChild. rewrite Hv.
      destruct (getYamlRange (Some (yaml.range value))) as [vspan|] eqn:Hvspan.
      * destruct (buildYamlTree_root value _ _ s c vspan Hvspan Hc) as [cs Hchild].
        eexists. split; [exact Hchild|]. intros _. by exists vspan, cs.
      * rewrite buildYamlTree_unfold, Hvspan in Hc. done.
    + intros pair _ Hv. unfold entryChild. by rewrite Hv.
    + by exists new.
  - destruct (buildYamlItems_loop (itemChild current) current items (newNode n0 st) n0 [])
      as (new & Hcur & Hnew & _ & Hnd & _); [|apply newNode_lookup|done|].
    + intros item index s c Hc. unfold itemChild.
      destruct (getYamlRange (Some (yaml.range item))) as [ispan|] eqn:Hispan.
      * destruct (buildYamlTree_root item _ _ s c ispan Hispan Hc) as [cs Hchild].
        eexists. split; [exact Hchild|]. by exists ispan, cs.
      * rewrite buildYamlTree_unfold, Hispan in Hc. done.
    + by exists new.
  - exists []. split_and!; [done|apply newNode_lookup|constructor|done].
Qed.

(** X12: a YAML mapping whose range resolves lists one child for each entry
    that has no value or whose value has a range that resolves, in order and
    without repeats.  The child of an entry with a value is the value's node
    under the mapping, with the entry's key and, when the key (or, without a
    key, the pair) has a range, that range as key span; the child of an entry
    without a value is the [null] node made for it. *)
Theorem yaml_mapping_child_per_entry (node : yaml.Node) (parent : option ref)
    (key : JsValue) (st : Store) (span : Span) (entries : list yaml.Pair) :
  getYamlRange (Some (yaml.range node)) = Some span →
  yaml.kind node = yaml.Map entries →
  let current := List.length (heap st) in
  let built := buildYamlTree node parent key st in
  ∃ children,
    deref built.2 current
    = Some (with_children (Some children) (yamlTreeNode node span parent key))
    ∧ NoDup children
    ∧ Forall2 (λ c ix, ∃ n,
         deref built.2 c = Some n
         ∧ match yaml.pair_value ix.2 with
           | Some value =>
               ∃ vspan cs,
                 getYamlRange (Some (yaml.range value)) = Some vspan
                 ∧ n = stampEntry ix.2
                         (with_children (Some cs)
                            (yamlTreeNode value vspan (Some current) (getYamlPairKey ix.2)))
           | None => n = nullNodeFor current (start span) ix.2
           end)
        children (keptFrom entryKept 0 entries).
Proof.
  intros Hspan Hkind current built.
  destruct (buildYamlTree_lists_children node parent key st span Hspan)
    as (children & _ & Hcur & Hnd & Hnew).
  rewrite Hkind in Hnew. by exists children.
Qed.

Lemma yaml_mapping_child_per_entry_witness :
  ∃ children,
    deref (buildYamlTree sample_quoted_map None VUndefined emptyStore).2 0%nat
    = Some (with_children (Some children)
              (yamlTreeNode sample_quoted_map {| start := 0; end_ := 8 |} None VUndefined))
    ∧ NoDup children
    ∧ Forall2 (λ c ix, ∃ n,
         deref (buildYamlTree sample_quoted_map None VUndefined emptyStore).2 c = Some n
         ∧ match yaml.pair_value ix.2 with
           | Some value =>
               ∃ vspan cs,
                 getYamlRange (Some (yaml.range value)) = Some vspan
                 ∧ n = stampEntry ix.2
                         (with_children (Some cs)
                            (yamlTreeNode value vspan (Some 0%nat) (getYamlPairKey ix.2)))
           | None => n = nullNodeFor 0%nat 0 ix.2
           end)
        children
        (keptFrom entryKept 0
           [yaml.mkPair
              (Some (yaml.mkKey (yaml.RangeArray [Some 0; Some 5; Some 5])
                       (VStr "old") (Some (VStr "old")) "old"))
              (Some (yaml.mk (yaml.RangeArray [Some 7; Some 8; Some 8]) (VNum 1)
                       (Some (VNum 1)) yaml.Scalar))
              yaml.RangeAbsent]).
Proof.
  exact (yaml_mapping_child_per_entry sample_quoted_map None VUndefined emptyStore
           {| start := 0; end_ := 8 |} _ eq_refl eq_refl).
Defined.

(** X13: a YAML sequence whose range resolves lists one child for each item
    whose range resolves, in order and without repeats; the child is the
    item's node under the sequence, and its key is the position of the item
    in the sequence, counting the items that got no node. *)
Theorem yaml_sequence_child_per_item (node : yaml.Node) (parent : option ref)
    (key : JsValue) (st : Store) (span : Span) (items : list yaml.Node) :
  getYamlRange (Some (yaml.range node)) = Some span →
  yaml.kind node = yaml.Seq items →
  let current := List.length (heap st) in
  let built := buildYamlTree node parent key st in
  ∃ children,
    deref built.2 current
    = Some (with_children (Some children) (yamlTreeNode node span parent key))
    ∧ NoDup children
    ∧ Forall2 (λ c ix, ∃ ispan cs,
         getYamlRange (Some (yaml.range ix.2)) = Some ispan
         ∧ deref built.2 c
           = Some (with_children (Some cs)
                     (yamlTreeNode ix.2 ispan (Some current) (VNum ix.1))))
        children (keptFrom itemKept 0 items).
Proof.
  intros Hspan Hkind current built.
  destruct (buildYamlTree_lists_children node parent key st span Hspan)
    as (children & _ & Hcur & Hnd & Hnew).
  rewrite Hkind in Hnew. exists children. split_and!; [done..|].
  eapply Forall2_impl; [exact Hnew|]. simpl.
  intros c ix (n & Hn & ispan & cs & Hispan & ->). by exists ispan, cs.
Qed.

Lemma yaml_sequence_child_per_item_witness :
  ∃ children,
    deref (buildYamlTree sample_empty_key None VUndefined emptyStore).2 0%nat
    = Some (with_children (Some children)
              (yamlTreeNode sample_empty_key {| start := 0; end_ := 4 |} None VUndefined))
    ∧ NoDup children
    ∧ Forall2 (λ c ix, ∃ ispan cs,
         getYamlRange (Some (yaml.range ix.2)) = Some ispan
         ∧ deref (buildYamlTree sample_empty_key None VUndefined emptyStore).2 c
           = Some (with_children (Some cs)
                     (yamlTreeNode ix.2 ispan (Some 0%nat) (VNum ix.1))))
        children
        (keptFrom itemKept 0
           [yaml.mk (yaml.RangeArray [Some 2; Some 2; Some 2]) VUndefined
              (Some (VObj "[object Object]"))
              (yaml.Map [yaml.mkPair
                           (Some (yaml.mkKey (yaml.RangeArray [Some 2; Some 2; Some 2])
                                    VNull (Some VNull) EmptyString))
                           None yaml.RangeAbsent])]).
Proof.
  exact (yaml_sequence_child_per_item sample_empty_key None VUndefined emptyStore
           {| start := 0; end_ := 4 |} _ eq_refl eq_refl).
Defined.

Lemma nodeMap_get_deref st offset r node :
  nodeMap_get st offset = Some (r, node) → deref st r = Some node.
Proof.
  unfold nodeMap_get. destruct (nodeMap st !! offset) as [r0|]; [|done]. simpl.
  destruct (deref st r0) as [n0|] eqn:Hn0; [|done]. by intros [= -> ->].
Qed.

Lemma indexOf_elem_of (children : list ref) (c : ref) :
  c ∈ children →
  ∃ i, children !! i = Some c ∧ indexOf children c = Z.of_nat i
       ∧ ∀ j, (j < i)%nat → children !! j ≠ Some c.
Proof.
  intros Hin. unfold indexOf.
  destruct (list_find (λ c', c' = c) children) as [[i y]|] eqn:Hfind.
  - apply list_find_Some in Hfind as (Hi & -> & Hfirst). exists i. split_and!; [done..|].
    intros j Hj Hcj. by apply (Hfirst j c).
  - apply list_find_None in Hfind. rewrite Forall_forall in Hfind. by destruct (Hfind c).
Qed.

(** X14: after a parse, a node of the index whose parent is an array is
    among the children its parent lists, so the position [indexOf] finds for
    its label is never [-1]: the label starts with the first position of the
    node among its siblings, and a colon. *)
Theorem array_child_label_shows_its_position
    (json_parseTree : string → option json.Node)
    (yaml_parseDocument : string → yamlDocument.Parsed)
    (activeTextEditor : option vscode.TextDocument)
    (offset : Z) (r : ref) (node parent : TreeNode.t) :
  let p := parseTree json_parseTree yaml_parseDocument activeTextEditor in
  nodeMap_get (store p) offset = Some (r, node) →
  arrayParent (store p) node = Some parent →
  ∃ siblings i rest,
    TreeNode.children parent = Some siblings
    ∧ siblings !! i = Some r
    ∧ (∀ j, (j < i)%nat → siblings !! j ≠ Some r)
    ∧ getLabel p r node
      = Returns (Number_toString (Z.of_nat i) +:+ ":" +:+ rest).
Proof.
  intros p Hget Hparent.
  apply nodeMap_get_deref in Hget.
  destruct (tree p) as [root|] eqn:Hroot;
    [|apply parseTree_no_tree in Hroot; fold p in Hroot; by rewrite Hroot in Hget].
  destruct (parseTree_root _ _ _ _ Hroot) as (_ & [chi Hshape] & Hup & _).
  fold p in Hshape, Hup.
  assert (∃ j, TreeNode.parent node = Some j ∧ deref (store p) j = Some parent)
    as (j & Hj & Hpj).
  { unfold arrayParent in Hparent. destruct (TreeNode.parent node) as [j|]; [|done].
    simpl in Hparent. destruct (deref (store p) j) as [pn|] eqn:Hpn; [|done].
    simpl in Hparent. case_bool_decide; [|done]. injection Hparent as ->. by exists j. }
  assert (r ≠ 0%nat) as Hne.
  { intros ->. apply shape_Some in Hshape as (n0 & Hn0 & Hp0 & _).
    unfold deref in Hget. rewrite Hget in Hn0. injection Hn0 as <-. congruence. }
  destruct (Hup r (TreeNode.parent node) (TreeNode.children node))
    as (j' & pj & cs & Hpar & _ & Hsj & Hin); [lia|apply shape_Some; by exists node|].
  rewrite Hj in Hpar. injection Hpar as <-.
  apply shape_Some in Hsj as (nj & Hnj & _ & Hcs).
  unfold deref in Hpj. rewrite Hpj in Hnj. injection Hnj as <-.
  destruct (indexOf_elem_of cs r Hin) as (i & Hi & Hindex & Hfirst).
  unfold getLabel. rewrite Hparent, Hcs, Hindex.
  destruct (TreeNode.type node); simpl; by eexists cs, i, _.
Qed.

Lemma array_child_label_shows_its_position_witness :
  ∃ siblings i rest,
    Some [3; 4]%nat = Some siblings
    ∧ siblings !! i = Some 4%nat
    ∧ (∀ j, (j < i)%nat → siblings !! j ≠ Some 4%nat)
    ∧ getLabel (sample_parse sample_nested_text "json") 4%nat
        (TreeNode.mk 21 4 TNull VNull (Some 2%nat) (Some []) (VNum 1) None None)
      = Returns (Number_toString (Z.of_nat i) +:+ ":" +:+ rest).
Proof.
  exact (array_child_label_shows_its_position sample_json_parseTree
           sample_yaml_parseDocument
           (Some {| vscode.getText := sample_nested_text; vscode.languageId := "json" |})
           21 4%nat
           (TreeNode.mk 21 4 TNull VNull (Some 2%nat) (Some []) (VNum 1) None None)
           (TreeNode.mk 14 12 TArray VUndefined (Some 0%nat) (Some [3; 4]%nat) (VStr "b")
              (Some 9) (Some 3))
           eq_refl eq_refl).
Defined.

(** ** The index holds the last object made at each offset *)

Lemma enter_snoc i offsets k m :
  enter i (offsets ++ [k]) m = <[k := (i + List.length offsets)%nat]> (enter i offsets m).
Proof.
  revert i m. induction offsets as [|k' offsets IH]; intros i m; simpl.
  - by rewrite Nat.add_0_r.
  - rewrite IH. f_equal. lia.
Qed.

Lemma enter_lookup offsets k r :
  enter 0 offsets ∅ !! k = Some r
  ↔ offsets !! r = Some k ∧ ∀ r', (r < r')%nat → offsets !! r' ≠ Some k.
Proof.
  revert r. induction offsets as [|k' offsets IH] using rev_ind; intros r.
  - simpl. rewrite lookup_empty. split; [done|]. by intros [? _].
  - rewrite enter_snoc. simpl. destruct (decide (k' = k)) as [->|Hne].
    + rewrite lookup_insert_eq. split.
      * intros [= <-]. split; [by rewrite lookup_app_r, Nat.sub_diag by lia|].
        intros r' Hr'. rewrite lookup_ge_None_2; [done|]. rewrite length_app. simpl. lia.
      * intros [Hr Hlast]. f_equal.
        destruct (decide (r = List.length offsets)) as [->|Hr']; [done|].
        destruct (Hlast (List.length offsets)).
        -- apply lookup_lt_Some in Hr. rewrite length_app in Hr. simpl in Hr. lia.
        -- by rewrite lookup_app_r, Nat.sub_diag by lia.
    + rewrite lookup_insert_ne by done. rewrite IH. split.
      * intros [Hr Hlast]. split; [by apply lookup_app_l_Some|].
        intros r' Hr'. destruct (decide (r' < List.length offsets)%nat).
        -- rewrite lookup_app_l by done. by apply Hlast.
        -- destruct (decide (r' = List.length offsets)) as [->|?].
           ++ rewrite lookup_app_r, Nat.sub_diag by lia. simpl. congruence.
           ++ rewrite lookup_ge_None_2; [done|]. rewrite length_app. simpl. lia.
      * intros [Hr Hlast].
        assert (r < List.length offsets)%nat as Hlt.
        { apply lookup_lt_Some in Hr as Hlt. rewrite length_app in Hlt. simpl in Hlt.
          destruct (decide (r = List.length offsets)) as [->|?]; [|lia].
          rewrite lookup_app_r, Nat.sub_diag in Hr by lia. simpl in Hr. congruence. }
        rewrite lookup_app_l in Hr by done. split; [done|].
        intros r' Hr' Hk. apply (Hlast r' Hr'). by apply lookup_app_l_Some.
Qed.

Lemma index_follows_newNode n s : index_follows_heap s → index_follows_heap (newNode n s).
Proof.
  unfold index_follows_heap, newNode. simpl. intros H. rewrite H, fmap_app. simpl.
  by rewrite enter_snoc, length_fmap.
Qed.

Lemma index_follows_update r f s :
  (∀ n, TreeNode.offset (f n) = TreeNode.offset n) →
  index_follows_heap s → index_follows_heap (update r f s).
Proof.
  unfold index_follows_heap, update. simpl. intros Hf ->. f_equal.
  apply list_eq. intros i. rewrite !list_lookup_fmap.
  destruct (decide (i = r)) as [->|Hne].
  - rewrite list_lookup_alter_eq. destruct (heap s !! r); simpl; [|done]. by rewrite Hf.
  - by rewrite list_lookup_alter_ne.
Qed.

Lemma index_follows_pushChild current child s :
  index_follows_heap s → index_follows_heap (pushChild current child s).
Proof. by apply index_follows_update. Qed.

Lemma index_follows_setKeySpan child ko kl s :
  index_follows_heap s → index_follows_heap (setKeySpan child ko kl s).
Proof.
  intros H. unfold setKeySpan.
  apply index_follows_update; [done|]. by apply index_follows_update.
Qed.

(** What making an object and entering it, pushing a child and setting a
    key span keep, the builders keep. *)
Section Preserved.
Variable I : Store → Prop.
Hypothesis I_newNode : ∀ n s, I s → I (newNode n s).
Hypothesis I_pushChild : ∀ current child s, I s → I (pushChild current child s).
Hypothesis I_setKeySpan : ∀ child ko kl s, I s → I (setKeySpan child ko kl s).

Lemma pushBuilt_preserves current built : I built.2 → I (pushBuilt current built).
Proof. destruct built as [[c|] s]; simpl; auto. Qed.

Lemma buildJsonTree_preserves node :
  ∀ parent key s, I s → I (buildJsonTree node parent key s).2.
Proof.
  induction node as [node IH] using json_Node_ind. intros parent key s Hs.
  rewrite buildJsonTree_unfold. destruct (collapses node).
  - unfold json_subnodes in IH.
    destruct (json.children node) as [[|keyNode [|valueNode rest]]|];
      simpl in IH; try done.
    inversion IH as [|? ? _ IH']. inversion IH' as [|? ? Hv _].
    specialize (Hv parent (json.value keyNode) s Hs).
    destruct (buildJsonTree valueNode parent (json.value keyNode) s) as [[c|] s'];
      simpl in *; auto.
  - simpl. unfold buildJsonChildren, json_subnodes, forEach in *.
    destruct (json.children node) as [children|]; simpl in IH; [|auto].
    destruct (json.type node); auto.
    + apply forEachFrom_invariant; [|auto].
      eapply Forall_impl; [exact IH|]. intros child Hchild index s' Hs'.
      by apply pushBuilt_preserves, Hchild.
    + apply forEachFrom_invariant; [|auto].
      eapply Forall_impl; [exact IH|]. intros child Hchild index s' Hs'.
      by apply pushBuilt_preserves, Hchild.
Qed.

Lemma buildYamlTree_preserves node :
  ∀ parent key s, I s → I (buildYamlTree node parent key s).2.
Proof.
  induction node as [node IH] using yaml_Node_ind. intros parent key s Hs.
  rewrite buildYamlTree_unfold.
  destruct (getYamlRange (Some (yaml.range node))) as [span|]; [|done]. simpl.
  unfold buildYamlChildren, buildYamlPairs, buildYamlItems, yaml_subnodes, forEach in *.
  destruct (yaml.kind node) as [entries|items|]; [| |auto].
  - apply forEachFrom_invariant; [|auto].
    apply Forall_forall. intros pair Hin index s' Hs'. unfold buildYamlPair.
    destruct (yaml.pair_value pair) as [value|] eqn:Hv.
    + rewrite Forall_forall in IH.
      assert (I (buildYamlTree value (Some (List.length (heap s))) (getYamlPairKey pair) s').2)
        as Hbuilt by (apply IH; [apply list_elem_of_omap; eauto|done]).
      unfold attachValue.
      destruct (buildYamlTree value _ _ s') as [[c|] s'']; simpl in *; [|done].
      destruct (getYamlRange (keyOrPair pair)); auto.
    + rewrite synthesizeNull_eq. auto.
  - apply forEachFrom_invariant; [|auto].
    eapply Forall_impl; [exact IH|]. intros item Hitem index s' Hs'.
    by apply pushBuilt_preserves, Hitem.
Qed.
End Preserved.

Lemma parseTree_index_follows
    (json_parseTree : string → option json.Node)
    (yaml_parseDocument : string → yamlDocument.Parsed) activeTextEditor :
  index_follows_heap (store (parseTree json_parseTree yaml_parseDocument activeTextEditor)).
Proof.
  assert (index_follows_heap emptyStore) as Hempty by done.
  unfold parseTree. destruct activeTextEditor as [document|]; simpl; [|done].
  destruct (isYamlLanguage _).
  - unfold parseYamlTree. destruct (yaml_parseDocument _) as [|[contents|]]; [done| |done].
    destruct (buildYamlTree contents None VUndefined emptyStore) eqn:Hb. simpl.
    change s with (o, s).2. rewrite <- Hb.
    apply (buildYamlTree_preserves index_follows_heap); [..|done].
    + apply index_follows_newNode.
    + apply index_follows_pushChild.
    + apply index_follows_setKeySpan.
  - destruct (json_parseTree _) as [parsedJson|]; [|done].
    destruct (buildJsonTree parsedJson None VUndefined emptyStore) eqn:Hb. simpl.
    change s with (o, s).2. rewrite <- Hb.
    apply (buildJsonTree_preserves index_follows_heap); [..|done].
    + apply index_follows_newNode.
    + apply index_follows_pushChild.
    + apply index_follows_setKeySpan.
Qed.

(** X15: after a parse, the index holds at each offset the last node made
    with that offset, and nothing at an offset no node has: of two nodes
    that share an offset, only the later one can be found. *)
Theorem index_holds_the_last_node_at_each_offset
    (json_parseTree : string → option json.Node)
    (yaml_parseDocument : string → yamlDocument.Parsed)
    (activeTextEditor : option vscode.TextDocument) (offset : Z) (r : ref) :
  let p := parseTree json_parseTree yaml_parseDocument activeTextEditor in
  nodeMap (store p) !! offset = Some r
  ↔ (∃ node, deref (store p) r = Some node ∧ TreeNode.offset node = offset)
    ∧ ∀ r' node', (r < r')%nat → deref (store p) r' = Some node' →
        TreeNode.offset node' ≠ offset.
Proof.
  intros p.
  pose proof (parseTree_index_follows json_parseTree yaml_parseDocument activeTextEditor)
    as Hindex.
  fold p in Hindex. unfold index_follows_heap in Hindex. rewrite Hindex, enter_lookup.
  unfold deref. rewrite list_lookup_fmap. split.
  - intros [Hr Hlast]. split.
    + destruct (heap (store p) !! r) as [node|]; [|done]. injection Hr as <-. by exists node.
    + intros r' node' Hr' Hnode' Ho. apply (Hlast r' Hr').
      by rewrite list_lookup_fmap, Hnode', <- Ho.
  - intros [(node & -> & <-) Hlast]. split; [done|].
    intros r' Hr'. rewrite list_lookup_fmap.
    destruct (heap (store p) !! r') as [node'|] eqn:Hnode'; [|done]. simpl.
    intros [= Ho]. by apply (Hlast r' node').
Qed.

(** X16: after a parse, the count that the label of a node of the index
    shows is the number of offsets [getChildren] returns for that node: no
    child a node lists is lost on the way to the view. *)
Theorem label_count_is_the_number_of_children
    (json_parseTree : string → option json.Node)
    (yaml_parseDocument : string → yamlDocument.Parsed)
    (activeTextEditor : option vscode.TextDocument)
    (offset : Z) (r : ref) (node : TreeNode.t) (offsets : list Z) :
  let p := parseTree json_parseTree yaml_parseDocument activeTextEditor in
  offset ≠ 0 →
  nodeMap_get (store p) offset = Some (r, node) →
  getChildren p (Some offset) = Returns offsets →
  getNodeChildrenCount node = Number_toString (Z.of_nat (List.length offsets)).
Proof.
  intros p Hne Hget Hoffsets.
  destruct (parseTree_ok json_parseTree yaml_parseDocument activeTextEditor)
    as (Hwf & _ & _). simpl in Hwf. fold p in Hwf.
  pose proof (nodeMap_get_deref _ _ _ _ Hget) as Hnode.
  destruct (wf_children _ Hwf _ _ Hnode) as (cs & Hcs & Hall & _).
  destruct (getChildrenOffsets_all _ _ Hall) as (nodes & Hnodes & Heq).
  unfold getChildren, truthy in Hoffsets.
  rewrite (proj2 (Z.eqb_neq offset 0) Hne) in Hoffsets.
  destruct (tree p) as [root|] eqn:Hroot.
  - rewrite Hget in Hoffsets. injection Hoffsets as <-.
    unfold getNodeChildrenCount, getChildrenOffsets. rewrite Hcs, Heq, length_fmap.
    by rewrite (Forall2_length _ _ _ Hnodes).
  - apply parseTree_no_tree in Hroot. fold p in Hroot. unfold deref in Hnode.
    by rewrite Hroot in Hnode.
Qed.

Lemma label_count_is_the_number_of_children_witness :
  getNodeChildrenCount
    (TreeNode.mk 14 12 TArray VUndefined (Some 0%nat) (Some [3; 4]%nat) (VStr "b")
       (Some 9) (Some 3))
  = Number_toString (Z.of_nat (List.length [15; 21])).
Proof.
  apply (label_count_is_the_number_of_children sample_json_parseTree
           sample_yaml_parseDocument
           (Some {| vscode.getText := sample_nested_text; vscode.languageId := "json" |})
           14 2%nat); [lia|reflexivity|reflexivity].
Defined.

(** ** The provider in its host *)

Lemma parse_is_a_parse json_parseTree yaml_parseDocument active s :
  provider (parse json_parseTree yaml_parseDocument active s)
  = parseTree json_parseTree yaml_parseDocument (host.document <$> active)
  ∧ editorUri (parse json_parseTree yaml_parseDocument active s)
    = host.uri_toString <$> active.
Proof. done. Qed.

(** X17: whatever the host calls the provider for after its construction,
    the tree, the cached text, the language id and the index it holds are
    those of one parse, of the editor that was active at the construction or
    at one of the calls, with the text its document had then.  (The editor
    it holds is that editor too, but its document is live and may have been
    edited since: the statement leaves it out.) *)
Theorem provider_always_holds_a_parse
    (json_parseTree : string → option json.Node)
    (yaml_parseDocument : string → yamlDocument.Parsed)
    (activeTextEditor : option host.TextEditor) (autorefresh : bool)
    (events : list (option host.TextEditor * host.Event)) :
  let s := run json_parseTree yaml_parseDocument
             (constructor json_parseTree yaml_parseDocument activeTextEditor autorefresh)
             events in
  ∃ active,
    let parsed := parseTree json_parseTree yaml_parseDocument (host.document <$> active) in
    active ∈ activeTextEditor :: events.*1
    ∧ tree (provider s) = tree parsed
    ∧ text (provider s) = text parsed
    ∧ languageId (provider s) = languageId parsed
    ∧ store (provider s) = store parsed
    ∧ editorUri s = host.uri_toString <$> active.
Proof.
  simpl.
  enough (∃ active,
            active ∈ activeTextEditor :: events.*1
            ∧ provider (run json_parseTree yaml_parseDocument
                          (constructor json_parseTree yaml_parseDocument
                             activeTextEditor autorefresh) events)
              = parseTree json_parseTree yaml_parseDocument (host.document <$> active)
            ∧ editorUri (run json_parseTree yaml_parseDocument
                           (constructor json_parseTree yaml_parseDocument
                              activeTextEditor autorefresh) events)
              = host.uri_toString <$> active) as (active & Hin & Hp & Hu).
  { exists active. by rewrite Hp. }
  induction events as [|[a event] events IH] using rev_ind.
  - exists activeTextEditor. split; [apply list_elem_of_here|].
    unfold constructor, onActiveEditorChanged, refresh.
    destruct activeTextEditor as [active|]; [case_bool_decide|]; done.
  - unfold run in *. rewrite foldl_snoc, fmap_app. simpl.
    destruct IH as (active & Hin & Hp & Hu).
    assert (∀ a', a' ∈ activeTextEditor :: events.*1 ++ [a] ↔
                  a' ∈ activeTextEditor :: events.*1 ∨ a' = a) as Hmem.
    { intros a'. rewrite app_comm_cons, elem_of_app, list_elem_of_singleton. done. }
    set (s := foldl _ _ events) in *.
    assert (∀ s',
              ∃ a', a' ∈ activeTextEditor :: events.*1 ++ [a]
                    ∧ provider (parse json_parseTree yaml_parseDocument a s')
                      = parseTree json_parseTree yaml_parseDocument (host.document <$> a')
                    ∧ editorUri (parse json_parseTree yaml_parseDocument a s')
                      = host.uri_toString <$> a') as Hnew.
    { intros s'. exists a. split; [apply Hmem; by right|done]. }
    assert (∃ a', a' ∈ activeTextEditor :: events.*1 ++ [a]
                  ∧ provider s
                    = parseTree json_parseTree yaml_parseDocument (host.document <$> a')
                  ∧ editorUri s = host.uri_toString <$> a') as Hold.
    { exists active. split; [apply Hmem; by left|done]. }
    unfold handle. destruct event; simpl.
    + unfold onActiveEditorChanged, refresh. apply (Hnew s).
    + unfold onDocumentChanged. destruct (tree (provider s)); [|done].
      destruct (autoRefresh s && _); [apply (Hnew s)|done].
    + done.
    + apply (Hnew s).
    + apply (Hnew s).
Qed.

Lemma onDocumentChanged_no_tree json_parseTree yaml_parseDocument active uri s :
  tree (provider s) = None →
  onDocumentChanged json_parseTree yaml_parseDocument active uri s = s.
Proof. intros H. unfold onDocumentChanged. by rewrite H. Qed.

(** X18: once a parse has left no tree, edits of a document and changes of
    the configuration never bring one back, and nothing is asked of the
    host: the provider stays as it is until the active editor changes or
    [refresh] is called. *)
Theorem edits_do_not_revive_a_missing_tree
    (json_parseTree : string → option json.Node)
    (yaml_parseDocument : string → yamlDocument.Parsed)
    (s : Session) (events : list (option host.TextEditor * host.Event)) :
  tree (provider s) = None →
  Forall (λ ev, isEditOrSetting ev.2 = true) events →
  provider (run json_parseTree yaml_parseDocument s events) = provider s
  ∧ editorUri (run json_parseTree yaml_parseDocument s events) = editorUri s
  ∧ requests (run json_parseTree yaml_parseDocument s events) = requests s.
Proof.
  intros Htree Hevents. revert s Htree.
  induction Hevents as [|ev events Hev _ IH]; intros s Htree; [done|].
  unfold run in *. simpl.
  assert (provider (handle json_parseTree yaml_parseDocument s ev) = provider s
          ∧ editorUri (handle json_parseTree yaml_parseDocument s ev) = editorUri s
          ∧ requests (handle json_parseTree yaml_parseDocument s ev) = requests s)
    as (Hp & Hu & Hr).
  { unfold handle. destruct ev.2; try done. simpl.
    by rewrite onDocumentChanged_no_tree. }
  destruct (IH (handle json_parseTree yaml_parseDocument s ev)) as (Hp' & Hu' & Hr');
    [by rewrite Hp|].
  by rewrite Hp', Hu', Hr'.
Qed.

Lemma edits_do_not_revive_a_missing_tree_witness :
  let s := constructor sample_json_parseTree sample_yaml_parseDocument
             (Some (sample_editor EmptyString "json")) true in
  let events :=
    [(Some (sample_editor sample_object_text "json"),
      host.DidChangeTextDocument "file:///sample");
     (Some (sample_editor sample_object_text "json"), host.DidChangeConfiguration true);
     (Some (sample_editor sample_object_text "json"),
      host.DidChangeTextDocument "file:///sample")] in
  provider (run sample_json_parseTree sample_yaml_parseDocument s events) = provider s
  ∧ editorUri (run sample_json_parseTree sample_yaml_parseDocument s events) = editorUri s
  ∧ requests (run sample_json_parseTree sample_yaml_parseDocument s events) = requests s.
Proof.
  apply edits_do_not_revive_a_missing_tree; [reflexivity|].
  repeat constructor.
Defined.
